(** * learningnova-viewer: the join relay of [api/join.js]

    A shallow embedding of the serverless handler that relays a join request
    (an access code and a display name) to a list of candidate upstream
    endpoints, tried in order until one of them answers with a success
    status.

    Conventions of the embedding:
    - JavaScript strings are [string]s: the bytes of the text in UTF-8, an
      unpaired surrogate (which a JSON request body can carry and UTF-8
      proper cannot write) being written in the same three-byte form,
      [ED A0..BF xx]; template literals are [++], which the code only ever
      applies with ASCII text at the joint;
    - the process environment is read once into a [Config] record;
    - the network is a state-passing oracle [fetch] over an arbitrary
      [World]; every call of it is appended to a trace, so that "which
      descriptors were executed" is a statement about that trace;
    - [JSON.parse] and [JSON.stringify] belong to the runtime and are taken
      as parameters: the handler only moves their results around. *)

From Stdlib Require Import List String Ascii ZArith NArith Bool Lia.
Import ListNotations.
Local Open Scope string_scope.
Local Open Scope Z_scope.

Set Implicit Arguments.
Set Warnings "-register-all,-notation-for-abbreviation".

(** ** Values *)

(** The values [JSON.parse] produces, and [res.json] sends.  A number is kept
    as a decimal mantissa and exponent; the handler never computes with it. *)
Inductive json : Type :=
| JNull
| JBool (b : bool)
| JNum (mantissa exponent : Z)
| JStr (s : string)
| JArr (items : list json)
| JObj (fields : list (string * json)).

(** The object literal [{}]. *)
Definition emptyObject : json := JObj [].

(** JavaScript truthiness of a string: only the empty string is falsy. *)
Definition truthy (s : string) : bool :=
  match s with
  | EmptyString => false
  | String _ _ => true
  end.

(** Truthiness of a property that may be absent ([undefined] is falsy). *)
Definition truthyField (f : option string) : bool :=
  match f with
  | None => false
  | Some s => truthy s
  end.

(** ** [encodeURIComponent]

    The built-in keeps the unreserved characters
    [A-Z a-z 0-9 - _ . ! ~ * ' ( )] and writes every other UTF-8 byte as
    [%XX] with upper-case hexadecimal digits; on a text that holds an
    unpaired surrogate it throws [URIError]. *)
Module URI.

Definition between (lo hi n : N) : bool := ((lo <=? n) && (n <=? hi))%N.

Definition isMark (c : ascii) : bool :=
  existsb (Ascii.eqb c)
          ["-"; "_"; "."; "!"; "~"; "*"; "'"; "("; ")"]%char.

Definition unreserved (c : ascii) : bool :=
  let n := N_of_ascii c in
  between 65 90 n || between 97 122 n || between 48 57 n || isMark c.

Definition hexDigit (n : N) : ascii :=
  nth (N.to_nat n) (list_ascii_of_string "0123456789ABCDEF") "0"%char.

Definition escapeByte (c : ascii) : string :=
  let n := N_of_ascii c in
  String "%" (String (hexDigit (n / 16)) (String (hexDigit (n mod 16)) EmptyString)).

(** The escaping itself, byte by byte. *)
Fixpoint percentEncode (s : string) : string :=
  match s with
  | EmptyString => EmptyString
  | String c rest =>
      if unreserved c
      then String c (percentEncode rest)
      else escapeByte c ++ percentEncode rest
  end.

(** No unpaired surrogate: the byte [ED] is never followed by one of
    [A0..BF] (a surrogate pair is written as the four bytes of its code
    point, so the three-byte form of a surrogate only stands for an unpaired
    one). *)
Fixpoint wellFormed (s : string) : bool :=
  match s with
  | EmptyString => true
  | String c rest =>
      match rest with
      | String d _ =>
          if (N_of_ascii c =? 237)%N && between 160 191 (N_of_ascii d)
          then false
          else wellFormed rest
      | EmptyString => true
      end
  end.

(** [encodeURIComponent(s)]: the escaped text, or [None] for [URIError]. *)
Definition encodeURIComponent (s : string) : option string :=
  if wellFormed s then Some (percentEncode s) else None.

End URI.

(** ** Configuration (module-level constants of [api/join.js]) *)

Record Config : Type := {
  TIMEOUT_MS : Z;
  UPSTREAM_URLS : list string;
  UPSTREAM_BASE : string;
  UPSTREAM_HEADERS : list (string * string);
  CORS_ORIGIN : string
}.

(** ** Attempt descriptors *)

Inductive Method : Type := GET | POST.

(** [{ info, method, url, body }]; a GET descriptor has no [body] property. *)
Record Attempt : Type := {
  info : string;
  method : Method;
  url : string;
  body : option json
}.

(** The object literal [{ code, name }]. *)
Definition joinPayload (code name : string) : json :=
  JObj [("code", JStr code); ("name", JStr name)].

(** [`code=${enc(code)}&name=${enc(name)}`]; [None] when either call of
    [enc] throws. *)
Definition queryOf (code name : string) : option string :=
  match URI.encodeURIComponent code with
  | None => None
  | Some c =>
      match URI.encodeURIComponent name with
      | None => None
      | Some n => Some ("code=" ++ c ++ "&name=" ++ n)
      end
  end.

Definition postAttempt (u code name : string) : Attempt :=
  {| info := "POST " ++ u; method := POST; url := u;
     body := Some (joinPayload code name) |}.

Definition getAttempt (u q : string) : Attempt :=
  {| info := "GET " ++ u ++ "?" ++ q; method := GET;
     url := u ++ "?" ++ q; body := None |}.

(** The body of both [forEach] callbacks: POST first, then GET. *)
Definition pushBoth (code name q u : string) : list Attempt :=
  [postAttempt u code name; getAttempt u q].

(** The three guessed paths under one root. *)
Definition commonPaths (r : string) : list string :=
  [r ++ "/api/join"; r ++ "/v1/join"; r ++ "/join"].

(** [defaultCandidates(base, code, name)]; the query is computed, and may
    throw, before [urls] is walked through. *)
Definition defaultCandidates (cfg : Config) (base code name : string)
  : option (list Attempt) :=
  let roots := if truthy base then [base] else [] in
  let urls :=
    match UPSTREAM_URLS cfg with
    | [] => flat_map commonPaths roots
    | _ :: _ => UPSTREAM_URLS cfg
    end in
  match queryOf code name with
  | None => None
  | Some getQuery => Some (flat_map (pushBoth code name getQuery) urls)
  end.

(** The candidate list the handler builds (the [attempts] array), or [None]
    when building it throws. *)
Definition buildAttempts (cfg : Config) (code name : string)
  : option (list Attempt) :=
  match UPSTREAM_URLS cfg with
  | _ :: _ =>
      match queryOf code name with
      | None => None
      | Some q => Some (flat_map (pushBoth code name q) (UPSTREAM_URLS cfg))
      end
  | [] => defaultCandidates cfg (UPSTREAM_BASE cfg) code name
  end.


(** ** The network, as the handler observes it *)

(** Why a promise of the runtime rejected: the abort signal of [withTimeout]
    fired, or something else went wrong (connection, protocol, URL).  The
    handler never inspects the error, so both causes take the same path
    through the code; the distinction only serves to state which executions
    ran out of time. *)
Inductive Fault : Type := DeadlineExpired | NetworkFailure.

(** [upstream.text()]: the body text, or a rejection. *)
Inductive TextRead : Type :=
| TextOk (rawText : string)
| TextFailed (why : Fault).

(** One call of [fetch]: the promise rejects (no response head was received
    before the abort signal fired, or the connection failed), or it resolves
    with a response whose body is read afterwards, still under the same
    abort signal: the timer is only cleared once the whole callback of
    [withTimeout] has settled. *)
Inductive Exchange : Type :=
| FetchRejected (why : Fault)
| FetchResolved (status : Z) (text : TextRead).

(** [fetch(a.url, opts)] with [opts = { method, signal, headers?, body? }];
    [signal_ms] is the delay after which [withTimeout] aborts the signal. *)
Record FetchCall : Type := {
  fc_url : string;
  fc_method : Method;
  signal_ms : Z;
  fc_headers : option (list (string * string));
  fc_body : option string
}.

(** [Response.ok] of the Fetch standard: the status is in 200..299. *)
Definition responseOk (status : Z) : bool :=
  (200 <=? status) && (status <=? 299).

(** ** What the handler computes with *)

(** The object the callback of [withTimeout] returns. *)
Module Result.
Record t : Type := {
  ok : bool;
  status : Z;
  data : json;
  info : string
}.
End Result.

(** What [await run.run] gives inside the [try]: a result, or an exception. *)
Inductive Outcome : Type :=
| Returned (result : Result.t)
| Thrown.

(** The [lastError] variable; [data] is absent in two of its three forms. *)
Module LastError.
Record t : Type := {
  status : Z;
  message : string;
  data : option json
}.
End LastError.

(** The inbound request: its method, and [req.body] with the two fields the
    handler destructures, each a string as the interface declares it, and
    each possibly absent. *)
Module Req.
Record Fields : Type := {
  code : option string;
  name : option string
}.
Record t : Type := {
  method : string;
  body : option Fields
}.
End Req.

(** What is sent with [res.json] or [res.end]. *)
Inductive Payload : Type :=
| NoContent
| ErrorOnly (error : string)
| Joined (upstreamStatus : Z) (via : string) (data : json)
| NotJoined (error : string) (upstreamData : json).

Record Response : Type := {
  headers : list (string * string);
  statusCode : Z;
  payload : Payload
}.

(** What a call of the handler ends in: a response sent through [res], or an
    exception that escapes it (the promise of the handler rejects and the
    handler itself sends nothing). *)
Inductive Exception : Type := URIError.

Inductive Reply : Type :=
| Sent (response : Response)
| Uncaught (e : Exception).

(** [let lastError = { status: 500, message: "No attempts made." }] *)
Definition noAttempts : LastError.t :=
  {| LastError.status := 500;
     LastError.message := "No attempts made.";
     LastError.data := None |}.

(** The assignment to [lastError] in the [else] branch. *)
Definition upstreamError (result : Result.t) : LastError.t :=
  {| LastError.status := Result.status result;
     LastError.message := "Upstream error via " ++ Result.info result;
     LastError.data := Some (Result.data result) |}.

(** The assignment to [lastError] in the [catch] block. *)
Definition fetchFailed (a : Attempt) : LastError.t :=
  {| LastError.status := 502;
     LastError.message := "Fetch failed (timeout/CORS/host) via " ++ info a;
     LastError.data := None |}.

(** [x || 502] on a number. *)
Definition orElse502 (x : Z) : Z := if x =? 0 then 502 else x.

(** [lastError.data ?? null] *)
Definition orNull (d : option json) : json :=
  match d with
  | Some v => v
  | None => JNull
  end.

(** The final [res.status(...).json(...)] after the loop. *)
Definition exhausted (lastError : LastError.t) : Z * Payload :=
  (orElse502 (LastError.status lastError),
   NotJoined (LastError.message lastError) (orNull (LastError.data lastError))).

(** The success response inside the loop. *)
Definition joined (result : Result.t) : Z * Payload :=
  (200, Joined (Result.status result) (Result.info result) (Result.data result)).

(** [upstream.text().catch(() => "")] *)
Definition readText (t : TextRead) : string :=
  match t with
  | TextOk rawText => rawText
  | TextFailed _ => ""
  end.

(** ** The handler *)

Section Handler.

(** The state of everything outside the process, and the runtime's
    functions the handler calls. *)
Variable World : Type.
Variable fetch : FetchCall -> World -> Exchange * World.
Variable JSON_parse : string -> option json.
Variable JSON_stringify : json -> string.
Variable cfg : Config.

(** A run threads the world and records every [fetch] with its answer. *)
Record Run : Type := {
  world : World;
  trace : list (FetchCall * Exchange)
}.

Definition M (A : Type) : Type := Run -> A * Run.

Definition ret {A : Type} (x : A) : M A := fun r => (x, r).

Definition bind {A B : Type} (m : M A) (k : A -> M B) : M B :=
  fun r => let (x, r1) := m r in k x r1.

Notation "x <- m ;; k" := (bind m (fun x => k))
  (at level 61, m at next level, right associativity).

Definition callFetch (c : FetchCall) : M Exchange :=
  fun r =>
    let (x, w) := fetch c (world r) in
    (x, {| world := w; trace := trace r ++ [(c, x)] |}).

(** The [opts] object built inside the callback, with the URL it is sent to;
    [signal] is the abort signal of the controller the callback receives. *)
Definition optsFor (a : Attempt) (signal : Z) : FetchCall :=
  match method a with
  | POST =>
      {| fc_url := url a; fc_method := POST; signal_ms := signal;
         fc_headers := Some (UPSTREAM_HEADERS cfg);
         fc_body := option_map JSON_stringify (body a) |}
  | GET =>
      {| fc_url := url a; fc_method := GET; signal_ms := signal;
         fc_headers := None; fc_body := None |}
  end.

(** The call made for a descriptor under the configured timeout. *)
Definition optsOf (a : Attempt) : FetchCall := optsFor a (TIMEOUT_MS cfg).

(** [withTimeout(promise, ms)]: the callback is started with a controller
    whose signal aborts after [ms]; [run] is the callback's own promise, the
    timer being cleared only when that promise has settled.  What an abort
    does to a pending [fetch] or [text()] is part of the [Exchange] the world
    answers with. *)
Definition withTimeout {A : Type} (promise : Z -> M A) (ms : Z) : M A :=
  promise ms.

(** [try { data = rawText ? JSON.parse(rawText) : {}; } catch { data = rawText; }] *)
Definition parseData (rawText : string) : json :=
  if truthy rawText
  then match JSON_parse rawText with
       | Some v => v
       | None => JStr rawText
       end
  else emptyObject.

(** What the callback returns once [fetch] has resolved. *)
Definition resultOf (a : Attempt) (status : Z) (text : TextRead) : Result.t :=
  let rawText := readText text in
  let data := parseData rawText in
  if responseOk status
  then {| Result.ok := true; Result.status := status;
          Result.data := data; Result.info := info a |}
  else {| Result.ok := false; Result.status := status;
          Result.data := data; Result.info := info a |}.

(** One attempt: the callback handed to [withTimeout], awaited. *)
Definition execute (a : Attempt) : M Outcome :=
  withTimeout
    (fun controller =>
       x <- callFetch (optsFor a controller) ;;
       match x with
       | FetchRejected _ => ret Thrown
       | FetchResolved status text => ret (Returned (resultOf a status text))
       end)
    (TIMEOUT_MS cfg).

(** The [for (const a of attempts)] loop and the response after it. *)
Fixpoint dispatch (attempts : list Attempt) (lastError : LastError.t)
  : M (Z * Payload) :=
  match attempts with
  | [] => ret (exhausted lastError)
  | a :: rest =>
      o <- execute a ;;
      match o with
      | Returned result =>
          if Result.ok result
          then ret (joined result)
          else dispatch rest (upstreamError result)
      | Thrown => dispatch rest (fetchFailed a)
      end
  end.

(** The three [res.setHeader] calls. *)
Definition corsHeaders : list (string * string) :=
  [("Access-Control-Allow-Origin",
    if truthy (CORS_ORIGIN cfg) then CORS_ORIGIN cfg else "*");
   ("Access-Control-Allow-Methods", "POST,OPTIONS");
   ("Access-Control-Allow-Headers", "Content-Type")].

Definition respond (st : Z) (p : Payload) : Response :=
  {| headers := corsHeaders; statusCode := st; payload := p |}.

(** [req.body || {}] *)
Definition fieldsOf (req : Req.t) : Req.Fields :=
  match Req.body req with
  | Some f => f
  | None => {| Req.code := None; Req.name := None |}
  end.

(** The string held by a field that passed the truthiness test. *)
Definition textOf (f : option string) : string :=
  match f with
  | Some s => s
  | None => ""
  end.

(** [export default async function handler(req, res)] *)
Definition handler (req : Req.t) : M Reply :=
  if String.eqb (Req.method req) "OPTIONS" then ret (Sent (respond 204 NoContent))
  else if negb (String.eqb (Req.method req) "POST")
  then ret (Sent (respond 405 (ErrorOnly "Use POST /api/join with JSON { code, name }")))
  else
    let code := Req.code (fieldsOf req) in
    let name := Req.name (fieldsOf req) in
    if negb (truthyField code) || negb (truthyField name)
    then ret (Sent (respond 400 (ErrorOnly "Missing code or name")))
    else
      match buildAttempts cfg (textOf code) (textOf name) with
      | None => ret (Uncaught URIError)
      | Some attempts =>
          r <- dispatch attempts noAttempts ;;
          ret (Sent (respond (fst r) (snd r)))
      end.

(** *** Reading the environment alone *)

(** The answers the world gives to a sequence of calls made one after the
    other, and the world they leave. *)
Fixpoint replay (calls : list FetchCall) (w : World) : list Exchange * World :=
  match calls with
  | [] => ([], w)
  | c :: cs =>
      let (x, w1) := fetch c w in
      let (xs, w2) := replay cs w1 in
      (x :: xs, w2)
  end.

(** What the loop stores in [lastError] after an exchange that did not
    succeed. *)
Definition failureOf (a : Attempt) (x : Exchange) : LastError.t :=
  match x with
  | FetchRejected _ => fetchFailed a
  | FetchResolved status text => upstreamError (resultOf a status text)
  end.

(** The value of [lastError] after a run of failed attempts: every failure
    overwrites the previous one. *)
Fixpoint lastFailure (lastError : LastError.t) (attempts : list Attempt)
         (xs : list Exchange) : LastError.t :=
  match attempts, xs with
  | a :: attempts', x :: xs' => lastFailure (failureOf a x) attempts' xs'
  | _, _ => lastError
  end.

End Handler.

(** A field of the request that is absent or empty. *)
Definition missing (f : option string) : Prop := f = None \/ f = Some "".

(** An exchange after which the loop goes on: the call was rejected, or the
    response has a status outside 200..299. *)
Definition unsuccessful (x : Exchange) : bool :=
  match x with
  | FetchRejected _ => true
  | FetchResolved status _ => negb (responseOk status)
  end.

(** An exchange that ran out of time or broke at the network level, before or
    after the response head. *)
Definition faulted (x : Exchange) : bool :=
  match x with
  | FetchRejected _ => true
  | FetchResolved _ (TextFailed _) => true
  | FetchResolved _ (TextOk _) => false
  end.

(** ** A scripted runtime, for running the handler on concrete inputs *)

Module Script.

(** The world is the list of exchanges still to come; a call consumes the
    next one, and an exhausted script refuses the connection. *)
Definition World : Type := list Exchange.

Definition fetch (_ : FetchCall) (w : World) : Exchange * World :=
  match w with
  | [] => (FetchRejected NetworkFailure, [])
  | x :: rest => (x, rest)
  end.

Definition dq : string := String (ascii_of_nat 34) EmptyString.

(** The text of the object with one member [room] whose value is [x]. *)
Definition roomText : string :=
  "{" ++ dq ++ "room" ++ dq ++ ":" ++ dq ++ "x" ++ dq ++ "}".

(** [JSON.parse] on the few texts the examples use; it agrees with the
    built-in on them, on the empty text and on texts that are no JSON. *)
Definition JSON_parse (text : string) : option json :=
  if String.eqb text roomText then Some (JObj [("room", JStr "x")])
  else if String.eqb text "{}" then Some (JObj [])
  else if String.eqb text "null" then Some JNull
  else None.

(** [JSON.stringify] on objects whose members are strings that need no
    escaping, which is what the examples send. *)
Fixpoint members (fields : list (string * json)) : string :=
  match fields with
  | [] => ""
  | (k, JStr v) :: rest =>
      dq ++ k ++ dq ++ ":" ++ dq ++ v ++ dq ++
      (match rest with [] => "" | _ :: _ => "," end) ++ members rest
  | _ :: rest => members rest
  end.

Definition JSON_stringify (j : json) : string :=
  match j with
  | JObj fields => "{" ++ members fields ++ "}"
  | _ => "null"
  end.

(** [UPSTREAM_URLS=https://a.test,https://b.test] *)
Definition twoTargets : Config :=
  {| TIMEOUT_MS := 8000;
     UPSTREAM_URLS := ["https://a.test"; "https://b.test"];
     UPSTREAM_BASE := "";
     UPSTREAM_HEADERS := [("Content-Type", "application/json")];
     CORS_ORIGIN := "" |}.

(** [UPSTREAM_BASE=https://x.test] *)
Definition baseOnly : Config :=
  {| TIMEOUT_MS := 8000;
     UPSTREAM_URLS := [];
     UPSTREAM_BASE := "https://x.test";
     UPSTREAM_HEADERS := [("Content-Type", "application/json")];
     CORS_ORIGIN := "" |}.

(** Nothing configured. *)
Definition unconfigured : Config :=
  {| TIMEOUT_MS := 8000;
     UPSTREAM_URLS := [];
     UPSTREAM_BASE := "";
     UPSTREAM_HEADERS := [("Content-Type", "application/json")];
     CORS_ORIGIN := "" |}.

Definition start (w : World) : Run World := {| world := w; trace := [] |}.

(** A well-formed join request. *)
Definition joinRequest (code name : string) : Req.t :=
  {| Req.method := "POST";
     Req.body := Some {| Req.code := Some code; Req.name := Some name |} |}.

Definition runHandler (cfg : Config) (req : Req.t) (w : World) :=
  handler fetch JSON_parse JSON_stringify cfg req (start w).

(** The candidates of a request whose fields can be encoded. *)
Definition candidates (cfg : Config) (code name : string) : list Attempt :=
  match buildAttempts cfg code name with
  | Some attempts => attempts
  | None => []
  end.

(** The one-character text that holds the unpaired surrogate U+D800, as the
    JSON text ["\ud800"] is parsed. *)
Definition loneSurrogate : string :=
  String (ascii_of_N 237) (String (ascii_of_N 160) (String (ascii_of_N 128) EmptyString)).

Definition runDispatch (cfg : Config) (attempts : list Attempt) (w : World) :=
  dispatch fetch JSON_parse JSON_stringify cfg attempts noAttempts (start w).

End Script.

(** ** Reading the environment (the module-level constants) *)

Module Env.

(** [process.env.X || d]: an unset or empty variable gives the default. *)
Definition orDefault (v : option string) (d : string) : string :=
  match v with
  | Some s => if truthy s then s else d
  | None => d
  end.

(** [s.split(",")]: the pieces between the commas, the empty ones included;
    the empty string has the one piece [""]. *)
Fixpoint splitComma (s : string) : list string :=
  match s with
  | EmptyString => [EmptyString]
  | String c rest =>
      if Ascii.eqb c ","
      then EmptyString :: splitComma rest
      else match splitComma rest with
           | [] => [String c EmptyString]
           | piece :: pieces => String c piece :: pieces
           end
  end.

Definition bytes (l : list N) : list ascii := map ascii_of_N l.

(** The white space and line terminators [trim] removes, in UTF-8: TAB, LF,
    VT, FF, CR, SPACE, U+00A0, U+1680, U+2000..U+200A, U+2028, U+2029,
    U+202F, U+205F, U+3000 and U+FEFF. *)
Definition whiteSpace : list (list ascii) :=
  [bytes [9]; bytes [10]; bytes [11]; bytes [12]; bytes [13]; bytes [32];
   bytes [194; 160]; bytes [225; 154; 128];
   bytes [226; 128; 128]; bytes [226; 128; 129]; bytes [226; 128; 130];
   bytes [226; 128; 131]; bytes [226; 128; 132]; bytes [226; 128; 133];
   bytes [226; 128; 134]; bytes [226; 128; 135]; bytes [226; 128; 136];
   bytes [226; 128; 137]; bytes [226; 128; 138];
   bytes [226; 128; 168]; bytes [226; 128; 169]; bytes [226; 128; 175];
   bytes [226; 129; 159]; bytes [227; 128; 128]; bytes [239; 187; 191]]%N.

(** What is left of [l] after the prefix [p], when [l] starts with it. *)
Fixpoint stripPrefix (p l : list ascii) : option (list ascii) :=
  match p with
  | [] => Some l
  | a :: p' =>
      match l with
      | b :: l' => if Ascii.eqb a b then stripPrefix p' l' else None
      | [] => None
      end
  end.

Fixpoint stripAny (tokens : list (list ascii)) (l : list ascii)
  : option (list ascii) :=
  match tokens with
  | [] => None
  | t :: ts =>
      match stripPrefix t l with
      | Some rest => Some rest
      | None => stripAny ts l
      end
  end.

(** Removes leading tokens for as long as there is one; every token is at
    least one byte long, so [fuel] = the length of the text suffices. *)
Fixpoint dropTokens (tokens : list (list ascii)) (fuel : nat) (l : list ascii)
  : list ascii :=
  match fuel with
  | O => l
  | S fuel' =>
      match stripAny tokens l with
      | Some rest => dropTokens tokens fuel' rest
      | None => l
      end
  end.

Definition trimStartBytes (l : list ascii) : list ascii :=
  dropTokens whiteSpace (List.length l) l.

Definition trimEndBytes (l : list ascii) : list ascii :=
  List.rev (dropTokens (map (@List.rev ascii) whiteSpace) (List.length l) (List.rev l)).

(** [s.trim()] *)
Definition trim (s : string) : string :=
  string_of_list_ascii (trimEndBytes (trimStartBytes (list_ascii_of_string s))).

(** [(process.env.UPSTREAM_URLS || "").split(",").map(s => s.trim()).filter(Boolean)] *)
Definition parseUpstreamUrls (v : option string) : list string :=
  filter truthy (map trim (splitComma (orDefault v ""))).

(** The variables the module reads as text. *)
Record Vars : Type := {
  VAR_UPSTREAM_URLS : option string;
  VAR_UPSTREAM_BASE : option string;
  VAR_CORS_ORIGIN : option string
}.

(** The constants of the module for a given environment; the timeout and the
    headers are what [parseInt] and [JSON.parse] made of their variables. *)
Definition load (timeout : Z) (hdrs : list (string * string)) (vars : Vars)
  : Config :=
  {| TIMEOUT_MS := timeout;
     UPSTREAM_URLS := parseUpstreamUrls (VAR_UPSTREAM_URLS vars);
     UPSTREAM_BASE := orDefault (VAR_UPSTREAM_BASE vars) "";
     UPSTREAM_HEADERS := hdrs;
     CORS_ORIGIN := orDefault (VAR_CORS_ORIGIN vars) "" |}.

End Env.

(** ** Auxiliary notions used to state properties *)

(** The URLs the candidates are built from: the explicit list, or the three
    guessed paths under the base. *)
Definition targetsOf (cfg : Config) : list string :=
  match UPSTREAM_URLS cfg with
  | [] => flat_map commonPaths (if truthy (UPSTREAM_BASE cfg) then [UPSTREAM_BASE cfg] else [])
  | _ :: _ => UPSTREAM_URLS cfg
  end.

(** The method as it is written in a label. *)
Definition methodName (m : Method) : string :=
  match m with
  | GET => "GET"
  | POST => "POST"
  end.

(** The characters of a string. *)
Definition chars (s : string) : list ascii := list_ascii_of_string s.

(** A character an encoded value can contain: an unreserved one, or [%]. *)
Definition encoded (c : ascii) : bool := URI.unreserved c || Ascii.eqb c "%".

(** The value of a hexadecimal digit. *)
Definition hexValue (c : ascii) : N :=
  let n := N_of_ascii c in
  if URI.between 48 57 n then (n - 48)%N
  else if URI.between 65 70 n then (n - 55)%N
  else 0%N.

(** The reading of a percent-encoded text: [%XX] is the byte [XX], any other
    character is itself. *)
Fixpoint percentDecode (s : string) : string :=
  match s with
  | EmptyString => EmptyString
  | String c rest =>
      if Ascii.eqb c "%"
      then match rest with
           | String h (String l rest') =>
               String (ascii_of_N (16 * hexValue h + hexValue l)) (percentDecode rest')
           | _ => String c (percentDecode rest)
           end
      else String c (percentDecode rest)
  end.

(** An exchange with what the handler cannot observe taken away: the cause
    of a rejection, and the difference between a body that could not be read
    and an empty one. *)
Definition blur (x : Exchange) : Exchange :=
  match x with
  | FetchRejected _ => FetchRejected NetworkFailure
  | FetchResolved status (TextFailed _) => FetchResolved status (TextOk "")
  | FetchResolved status (TextOk rawText) => FetchResolved status (TextOk rawText)
  end.

(** The same world, answering with blurred exchanges. *)
Definition blurred {World : Type} (fetch : FetchCall -> World -> Exchange * World)
  : FetchCall -> World -> Exchange * World :=
  fun c w => let (x, w1) := fetch c w in (blur x, w1).

(** * Properties *)

Unset Implicit Arguments.

(** ** The candidate builder *)

Example spec_example_candidates :
  map info (Script.candidates Script.twoTargets "AB 12" "J/Doe") =
  ["POST https://a.test"; "GET https://a.test?code=AB%2012&name=J%2FDoe";
   "POST https://b.test"; "GET https://b.test?code=AB%2012&name=J%2FDoe"].
Proof. reflexivity. Qed.

Section Pairs.

Variables (A B : Type) (f g : A -> B).

Lemma length_pairs (l : list A) :
  List.length (flat_map (fun u => [f u; g u]) l) = (2 * List.length l)%nat.
Proof.
  induction l as [|u l IH]; simpl; [reflexivity | rewrite IH; lia].
Qed.

Lemma nth_error_pairs (l : list A) :
  forall (i : nat) (u : A),
    nth_error l i = Some u ->
    nth_error (flat_map (fun u => [f u; g u]) l) (2 * i) = Some (f u) /\
    nth_error (flat_map (fun u => [f u; g u]) l) (2 * i + 1) = Some (g u).
Proof.
  induction l as [|v l IH]; intros i u Hi.
  - destruct i; discriminate.
  - destruct i as [|i].
    + injection Hi as ->. split; reflexivity.
    + simpl in Hi. destruct (IH i u Hi) as [Hp Hg].
      replace (2 * S i)%nat with (S (S (2 * i))) by lia.
      replace (S (S (2 * i)) + 1)%nat with (S (S (2 * i + 1))) by lia.
      split; assumption.
Qed.

End Pairs.

Lemma map_fst_combine (A B : Type) (l : list A) :
  forall l' : list B,
    List.length l' = List.length l -> map fst (combine l l') = l.
Proof.
  induction l as [|u l IH]; intros [|v l'] H; try discriminate; [reflexivity |].
  simpl. f_equal. apply IH. simpl in H. congruence.
Qed.

(** *** What the encoder does *)

(** U+D55C is written [ED 95 9C] and is encoded byte by byte; the unpaired
    surrogate U+D800, written [ED A0 80], makes the built-in throw. *)
Example encode_hangul_syllable :
  URI.encodeURIComponent
    (String (ascii_of_N 237) (String (ascii_of_N 149) (String (ascii_of_N 156) "!")))
  = Some "%ED%95%9C!".
Proof. reflexivity. Qed.

Example encode_lone_surrogate :
  URI.encodeURIComponent ("a" ++ Script.loneSurrogate ++ "b") = None.
Proof. reflexivity. Qed.

Lemma escapeByte_encoded (c : ascii) :
  forallb encoded (chars (URI.escapeByte c)) = true.
Proof. destruct c as [[] [] [] [] [] [] [] []]; reflexivity. Qed.

Lemma percentDecode_escape (c : ascii) (e : string) :
  percentDecode (URI.escapeByte c ++ e) = String c (percentDecode e).
Proof. destruct c as [[] [] [] [] [] [] [] []]; reflexivity. Qed.

Lemma chars_app (s t : string) : chars (s ++ t) = (chars s ++ chars t)%list.
Proof.
  induction s as [|c s IH]; [reflexivity |]. simpl. f_equal. exact IH.
Qed.

Lemma percentEncode_cons (c : ascii) (s : string) :
  URI.percentEncode (String c s) =
  if URI.unreserved c
  then String c (URI.percentEncode s)
  else URI.escapeByte c ++ URI.percentEncode s.
Proof. reflexivity. Qed.

(** The output is written with unreserved characters and [%] only. *)
Lemma percentEncode_encoded (s : string) :
  forallb encoded (chars (URI.percentEncode s)) = true.
Proof.
  induction s as [|c s IH]; [reflexivity |].
  rewrite percentEncode_cons.
  destruct (URI.unreserved c) eqn:Hc.
  - simpl. unfold encoded at 1. rewrite Hc. exact IH.
  - rewrite chars_app, forallb_app, escapeByte_encoded. exact IH.
Qed.

(** Reading the output gives the input back. *)
Lemma percentDecode_encode (s : string) :
  percentDecode (URI.percentEncode s) = s.
Proof.
  induction s as [|c s IH]; [reflexivity |].
  rewrite percentEncode_cons.
  destruct (URI.unreserved c) eqn:Hc.
  - simpl. destruct (Ascii.eqb_spec c "%") as [-> | _]; [discriminate |].
    rewrite IH. reflexivity.
  - rewrite percentDecode_escape, IH. reflexivity.
Qed.

Lemma percentEncode_inj (s t : string) :
  URI.percentEncode s = URI.percentEncode t -> s = t.
Proof.
  intros H. rewrite <- (percentDecode_encode s), <- (percentDecode_encode t), H.
  reflexivity.
Qed.

(** The built-in throws exactly on the texts with an unpaired surrogate. *)
Lemma encodeURIComponent_some (s e : string) :
  URI.encodeURIComponent s = Some e <->
  URI.wellFormed s = true /\ e = URI.percentEncode s.
Proof.
  unfold URI.encodeURIComponent. destruct (URI.wellFormed s); split.
  - intros H. injection H as <-. split; reflexivity.
  - intros [_ ->]. reflexivity.
  - discriminate.
  - intros [H _]. discriminate.
Qed.

Lemma queryOf_some (code name q : string) :
  queryOf code name = Some q <->
  URI.wellFormed code = true /\ URI.wellFormed name = true /\
  q = "code=" ++ URI.percentEncode code ++ "&name=" ++ URI.percentEncode name.
Proof.
  unfold queryOf, URI.encodeURIComponent.
  destruct (URI.wellFormed code), (URI.wellFormed name); split;
    try discriminate; try (intros [H1 [H2 _]]; discriminate).
  - intros H. injection H as <-. repeat split.
  - intros [_ [_ ->]]. reflexivity.
Qed.

Lemma queryOf_none (code name : string) :
  queryOf code name = None <->
  URI.wellFormed code = false \/ URI.wellFormed name = false.
Proof.
  unfold queryOf, URI.encodeURIComponent.
  destruct (URI.wellFormed code), (URI.wellFormed name); split;
    try discriminate; auto; intros [H | H]; discriminate.
Qed.

(** Both places where candidates are built give, for the query [q] of the
    request, the POST and GET of every target; they throw when the query
    does. *)
Lemma buildAttempts_targets (cfg : Config) (code name : string) :
  buildAttempts cfg code name =
  match queryOf code name with
  | Some q => Some (flat_map (pushBoth code name q) (targetsOf cfg))
  | None => None
  end.
Proof.
  unfold buildAttempts, defaultCandidates, targetsOf.
  destruct (UPSTREAM_URLS cfg); reflexivity.
Qed.

(** C2 (amended): with an explicit target list of length N and a code and a
    name that hold no unpaired surrogate, the handler builds exactly 2N
    descriptors; the target at position i gives the descriptor at position
    2i, a POST to the raw URL carrying [{code, name}], and the one at
    position 2i+1, a GET to the URL followed by [?code=..&name=..], where
    both values are percent-encoded: written with unreserved characters and
    [%XX] escapes only, and read back as the value itself. *)
Theorem explicit_targets_give_post_then_get (cfg : Config) (code name : string) :
  UPSTREAM_URLS cfg <> [] ->
  URI.wellFormed code = true ->
  URI.wellFormed name = true ->
  exists attempts ec en,
    buildAttempts cfg code name = Some attempts /\
    URI.encodeURIComponent code = Some ec /\
    URI.encodeURIComponent name = Some en /\
    (forallb encoded (chars ec) = true /\ percentDecode ec = code) /\
    (forallb encoded (chars en) = true /\ percentDecode en = name) /\
    List.length attempts = (2 * List.length (UPSTREAM_URLS cfg))%nat /\
    forall (i : nat) (u : string),
      nth_error (UPSTREAM_URLS cfg) i = Some u ->
      nth_error attempts (2 * i) =
        Some {| info := "POST " ++ u; method := POST; url := u;
                body := Some (JObj [("code", JStr code); ("name", JStr name)]) |} /\
      nth_error attempts (2 * i + 1) =
        Some {| info := "GET " ++ u ++ "?code=" ++ ec ++ "&name=" ++ en;
                method := GET;
                url := u ++ "?code=" ++ ec ++ "&name=" ++ en;
                body := None |}.
Proof.
  intros Hurls Hc Hn.
  set (q := "code=" ++ URI.percentEncode code ++ "&name=" ++ URI.percentEncode name).
  assert (Hq : queryOf code name = Some q).
  { apply queryOf_some. repeat split; assumption. }
  exists (flat_map (fun u => [postAttempt u code name; getAttempt u q])
                   (UPSTREAM_URLS cfg)),
         (URI.percentEncode code), (URI.percentEncode name).
  split.
  { rewrite buildAttempts_targets, Hq. unfold targetsOf.
    destruct (UPSTREAM_URLS cfg); [congruence | reflexivity]. }
  split; [apply encodeURIComponent_some; split; [exact Hc | reflexivity] |].
  split; [apply encodeURIComponent_some; split; [exact Hn | reflexivity] |].
  split; [split; [apply percentEncode_encoded | apply percentDecode_encode] |].
  split; [split; [apply percentEncode_encoded | apply percentDecode_encode] |].
  split; [apply length_pairs |].
  intros i u Hi.
  exact (nth_error_pairs _ _ (fun u => postAttempt u code name)
                         (fun u => getAttempt u q) _ _ _ Hi).
Qed.

(** A code with a space and a name with a slash. *)
Lemma explicit_targets_give_post_then_get_witness :
  List.length (Script.candidates Script.twoTargets "AB 12" "J/Doe") = 4%nat /\
  nth_error (Script.candidates Script.twoTargets "AB 12" "J/Doe") 3 =
  Some {| info := "GET https://b.test?code=AB%2012&name=J%2FDoe"; method := GET;
          url := "https://b.test?code=AB%2012&name=J%2FDoe"; body := None |}.
Proof.
  assert (H : UPSTREAM_URLS Script.twoTargets <> []) by discriminate.
  destruct (explicit_targets_give_post_then_get
              Script.twoTargets "AB 12" "J/Doe" H eq_refl eq_refl)
    as [attempts [ec [en [Hb [Hec [Hen [_ [_ [Hlen Hnth]]]]]]]]].
  vm_compute in Hec. injection Hec as <-.
  vm_compute in Hen. injection Hen as <-.
  unfold Script.candidates. rewrite Hb. split; [exact Hlen |].
  exact (proj2 (Hnth 1%nat "https://b.test" eq_refl)).
Defined.

(** C2 as stated fails: a code that is the unpaired surrogate U+D800 is not
    empty, yet with two targets configured no descriptor is produced: the
    builder throws, and the handler sends nothing and calls no one. *)
Lemma lone_surrogate_stops_the_builder :
  truthy Script.loneSurrogate = true /\
  buildAttempts Script.twoTargets Script.loneSurrogate "Jo" = None /\
  Script.runHandler Script.twoTargets
    (Script.joinRequest Script.loneSurrogate "Jo")
    [FetchResolved 200 (TextOk "{}")] =
  (Uncaught URIError, Script.start [FetchResolved 200 (TextOk "{}")]).
Proof. repeat split. Qed.

(** C3 (amended): without an explicit list, and for a code and a name that
    hold no unpaired surrogate, a configured base gives exactly six
    descriptors, POST then GET for [/api/join], [/v1/join] and [/join] in that
    order; without a base the sequence is empty.  Both hold of
    [defaultCandidates] and of the list the handler builds from it. *)
Theorem base_expands_to_six_candidates (cfg : Config) (code name : string) :
  UPSTREAM_URLS cfg = [] ->
  URI.wellFormed code = true ->
  URI.wellFormed name = true ->
  let base := UPSTREAM_BASE cfg in
  exists ec en,
    URI.encodeURIComponent code = Some ec /\
    URI.encodeURIComponent name = Some en /\
    let q := "?code=" ++ ec ++ "&name=" ++ en in
    let post u := {| info := "POST " ++ u; method := POST; url := u;
                     body := Some (JObj [("code", JStr code); ("name", JStr name)]) |} in
    let get u := {| info := "GET " ++ u ++ q; method := GET; url := u ++ q;
                    body := None |} in
    buildAttempts cfg code name = defaultCandidates cfg base code name /\
    (base <> "" ->
     buildAttempts cfg code name =
     Some [post (base ++ "/api/join"); get (base ++ "/api/join");
           post (base ++ "/v1/join"); get (base ++ "/v1/join");
           post (base ++ "/join"); get (base ++ "/join")]) /\
    (base = "" -> buildAttempts cfg code name = Some []).
Proof.
  intros Hurls Hc Hn base.
  exists (URI.percentEncode code), (URI.percentEncode name).
  split; [apply encodeURIComponent_some; split; [exact Hc | reflexivity] |].
  split; [apply encodeURIComponent_some; split; [exact Hn | reflexivity] |].
  intros q post get.
  assert (Hq : queryOf code name =
               Some ("code=" ++ URI.percentEncode code ++ "&name=" ++ URI.percentEncode name)).
  { apply queryOf_some. repeat split; assumption. }
  unfold buildAttempts, defaultCandidates. rewrite Hurls, Hq. fold base.
  split; [reflexivity |]. split.
  - intros Hbase. destruct base; [congruence | reflexivity].
  - intros ->. reflexivity.
Qed.

(** A base, then nothing, for a code with a space in it. *)
Lemma base_expands_to_six_candidates_witness :
  option_map (map (fun a => (info a, url a)))
             (buildAttempts Script.baseOnly "AB 12" "Jo") =
  Some [("POST https://x.test/api/join", "https://x.test/api/join");
        ("GET https://x.test/api/join?code=AB%2012&name=Jo",
         "https://x.test/api/join?code=AB%2012&name=Jo");
        ("POST https://x.test/v1/join", "https://x.test/v1/join");
        ("GET https://x.test/v1/join?code=AB%2012&name=Jo",
         "https://x.test/v1/join?code=AB%2012&name=Jo");
        ("POST https://x.test/join", "https://x.test/join");
        ("GET https://x.test/join?code=AB%2012&name=Jo",
         "https://x.test/join?code=AB%2012&name=Jo")] /\
  buildAttempts Script.unconfigured "AB 12" "Jo" = Some [].
Proof.
  split.
  - destruct (base_expands_to_six_candidates Script.baseOnly "AB 12" "Jo"
                eq_refl eq_refl eq_refl) as [ec [en [Hec [Hen [_ [Hsix _]]]]]].
    vm_compute in Hec. injection Hec as <-.
    vm_compute in Hen. injection Hen as <-.
    rewrite Hsix by discriminate. reflexivity.
  - destruct (base_expands_to_six_candidates Script.unconfigured "AB 12" "Jo"
                eq_refl eq_refl eq_refl) as [ec [en [_ [_ [_ [_ Hnone]]]]]].
    exact (Hnone eq_refl).
Defined.

(** C3 as stated fails: with only a base configured, or with nothing
    configured at all, a name that is the unpaired surrogate U+D800 makes
    [defaultCandidates] throw where it computes the query, before the URLs
    are looked at: neither six descriptors nor the empty sequence is
    produced. *)
Lemma lone_surrogate_stops_defaultCandidates :
  truthy Script.loneSurrogate = true /\
  defaultCandidates Script.baseOnly (UPSTREAM_BASE Script.baseOnly)
                    "AB12" Script.loneSurrogate = None /\
  buildAttempts Script.baseOnly "AB12" Script.loneSurrogate = None /\
  defaultCandidates Script.unconfigured (UPSTREAM_BASE Script.unconfigured)
                    "AB12" Script.loneSurrogate = None /\
  buildAttempts Script.unconfigured "AB12" Script.loneSurrogate = None.
Proof. repeat split. Qed.

(** ** The dispatch loop *)

Section Dispatch.

Variable World : Type.
Variable fetch : FetchCall -> World -> Exchange * World.
Variable JSON_parse : string -> option json.
Variable JSON_stringify : json -> string.
Variable cfg : Config.

Local Notation opts := (optsOf JSON_stringify cfg).
Local Notation exec := (execute fetch JSON_parse JSON_stringify cfg).
Local Notation loop := (dispatch fetch JSON_parse JSON_stringify cfg).
Local Notation result := (resultOf JSON_parse).
Local Notation run w tr := {| world := w; trace := tr |}.

Lemma resultOf_ok (a : Attempt) (s : Z) (t : TextRead) :
  Result.ok (result a s t) = responseOk s.
Proof. unfold resultOf. destruct (responseOk s); reflexivity. Qed.

Lemma resultOf_fields (a : Attempt) (s : Z) (t : TextRead) :
  Result.status (result a s t) = s /\
  Result.data (result a s t) = parseData JSON_parse (readText t) /\
  Result.info (result a s t) = info a.
Proof. unfold resultOf. destruct (responseOk s); repeat split. Qed.

Lemma execute_eq (a : Attempt) (w : World) (tr : list (FetchCall * Exchange))
      (x : Exchange) (w1 : World) :
  fetch (opts a) w = (x, w1) ->
  exec a (run w tr) =
  (match x with
   | FetchRejected _ => Thrown
   | FetchResolved s t => Returned (result a s t)
   end, run w1 (tr ++ [(opts a, x)])).
Proof.
  intros E. unfold execute, withTimeout, bind, callFetch, ret. simpl.
  change (optsFor JSON_stringify cfg a (TIMEOUT_MS cfg)) with (opts a).
  rewrite E. destruct x; reflexivity.
Qed.

(** One turn of the loop. *)
Lemma dispatch_step (a : Attempt) (rest : list Attempt) (le : LastError.t)
      (w : World) (tr : list (FetchCall * Exchange)) (x : Exchange) (w1 : World) :
  fetch (opts a) w = (x, w1) ->
  loop (a :: rest) le (run w tr) =
  match x with
  | FetchRejected _ => loop rest (fetchFailed a) (run w1 (tr ++ [(opts a, x)]))
  | FetchResolved s t =>
      if responseOk s
      then (joined (result a s t), run w1 (tr ++ [(opts a, x)]))
      else loop rest (upstreamError (result a s t)) (run w1 (tr ++ [(opts a, x)]))
  end.
Proof.
  intros E. simpl. unfold bind at 1. rewrite (execute_eq a w tr x w1 E).
  destruct x as [f | s t]; [reflexivity |].
  rewrite resultOf_ok. destruct (responseOk s); reflexivity.
Qed.

Lemma dispatch_step_unsuccessful (a : Attempt) (rest : list Attempt)
      (le : LastError.t) (w : World) (tr : list (FetchCall * Exchange))
      (x : Exchange) (w1 : World) :
  fetch (opts a) w = (x, w1) ->
  unsuccessful x = true ->
  loop (a :: rest) le (run w tr) =
  loop rest (failureOf JSON_parse a x) (run w1 (tr ++ [(opts a, x)])).
Proof.
  intros E Hx. rewrite (dispatch_step a rest le w tr x w1 E).
  destruct x as [f | s t]; [reflexivity |].
  simpl in Hx. apply negb_true_iff in Hx. rewrite Hx. reflexivity.
Qed.

Lemma replay_length (calls : list FetchCall) :
  forall (w : World) (xs : list Exchange) (w1 : World),
    replay fetch calls w = (xs, w1) -> List.length xs = List.length calls.
Proof.
  induction calls as [|c cs IH]; simpl; intros w xs w1 H.
  - injection H as <- _. reflexivity.
  - destruct (fetch c w) as [x w'].
    destruct (replay fetch cs w') as [xs' w2] eqn:E.
    injection H as <- _. simpl. f_equal. exact (IH _ _ _ E).
Qed.

(** A prefix of failing attempts is walked through to its end; only the last
    failure is remembered. *)
Lemma dispatch_failing_prefix (pre : list Attempt) :
  forall (rest : list Attempt) (le : LastError.t) (w : World)
         (tr : list (FetchCall * Exchange)) (xs : list Exchange) (w1 : World),
    replay fetch (map opts pre) w = (xs, w1) ->
    forallb unsuccessful xs = true ->
    loop (pre ++ rest) le (run w tr) =
    loop rest (lastFailure JSON_parse le pre xs)
         (run w1 (tr ++ combine (map opts pre) xs)).
Proof.
  induction pre as [|a pre IH]; intros rest le w tr xs w1 H Hall.
  - simpl in H. injection H as <- <-. simpl. rewrite app_nil_r. reflexivity.
  - simpl in H. destruct (fetch (opts a) w) as [x w'] eqn:E.
    destruct (replay fetch (map opts pre) w') as [xs' w2] eqn:E2.
    injection H as <- <-. simpl in Hall. apply andb_true_iff in Hall as [Hx Hxs].
    rewrite <- app_comm_cons.
    rewrite (dispatch_step_unsuccessful a (pre ++ rest) le w tr x w' E Hx).
    rewrite (IH rest _ w' _ xs' w2 E2 Hxs). simpl.
    rewrite <- app_assoc. reflexivity.
Qed.

Lemma lastFailure_snoc (pre : list Attempt) :
  forall (le : LastError.t) (a : Attempt) (xs : list Exchange) (x : Exchange),
    List.length xs = List.length pre ->
    lastFailure JSON_parse le (pre ++ [a]) (xs ++ [x]) = failureOf JSON_parse a x.
Proof.
  induction pre as [|b pre IH]; intros le a xs x Hlen.
  - destruct xs; [reflexivity | discriminate].
  - destruct xs as [|y xs]; [discriminate |].
    simpl. apply IH. simpl in Hlen. congruence.
Qed.

(** C1: when every descriptor before the k-th fails and the k-th answers with
    a success status, the loop returns the success result with that status,
    the k-th label as [via] and the k-th body as [data]; the calls it made
    are those of the first k descriptors, in order, and none of a later
    one. *)
Theorem first_success_wins (pre : list Attempt) (a : Attempt) (post : list Attempt)
        (le : LastError.t) (w : World) (tr : list (FetchCall * Exchange))
        (xs : list Exchange) (w1 : World) (s : Z) (t : TextRead) (w2 : World) :
  replay fetch (map opts pre) w = (xs, w1) ->
  forallb unsuccessful xs = true ->
  fetch (opts a) w1 = (FetchResolved s t, w2) ->
  responseOk s = true ->
  let out := loop (pre ++ a :: post) le (run w tr) in
  fst out = (200, Joined s (info a) (parseData JSON_parse (readText t))) /\
  world (snd out) = w2 /\
  trace (snd out) =
    (tr ++ combine (map opts pre) xs ++ [(opts a, FetchResolved s t)])%list /\
  map fst (trace (snd out)) = (map fst tr ++ map opts (pre ++ [a]))%list.
Proof.
  intros Hpre Hfail Ha Hok out.
  assert (Hout : out =
            ((200, Joined s (info a) (parseData JSON_parse (readText t))),
             run w2 (tr ++ combine (map opts pre) xs ++ [(opts a, FetchResolved s t)]))).
  { unfold out. rewrite (dispatch_failing_prefix pre _ le w tr xs w1 Hpre Hfail).
    rewrite (dispatch_step a post _ w1 _ _ w2 Ha). rewrite Hok.
    unfold joined. destruct (resultOf_fields a s t) as [-> [-> ->]].
    rewrite <- app_assoc. reflexivity. }
  rewrite Hout. simpl. repeat split.
  rewrite !map_app. simpl.
  rewrite (map_fst_combine _ _ (map opts pre) xs).
  - reflexivity.
  - rewrite (replay_length _ _ _ _ Hpre). reflexivity.
Qed.

(** C4: when every descriptor fails, the response is the failure shape
    ([joined: false]) built from the last descriptor alone: its message ends
    with the label of the last descriptor; its status is the status the last
    upstream response carried, or 502 when the last call was rejected; its
    [upstreamData] is the body of that last response, or [null] when the last
    call was rejected.  (A response received from the network carries a
    non-zero status.) *)
Theorem exhaustion_reports_last_failure (pre : list Attempt) (a : Attempt)
        (le : LastError.t) (w : World) (tr : list (FetchCall * Exchange))
        (xs : list Exchange) (x : Exchange) (w1 : World) :
  replay fetch (map opts (pre ++ [a])) w = (xs ++ [x], w1)%list ->
  forallb unsuccessful (xs ++ [x]) = true ->
  (forall s t, x = FetchResolved s t -> s <> 0) ->
  loop (pre ++ [a]) le (run w tr) =
  (match x with
   | FetchRejected _ =>
       (502, NotJoined ("Fetch failed (timeout/CORS/host) via " ++ info a) JNull)
   | FetchResolved s t =>
       (s, NotJoined ("Upstream error via " ++ info a)
                     (parseData JSON_parse (readText t)))
   end,
   run w1 (tr ++ combine (map opts (pre ++ [a])) (xs ++ [x]))).
Proof.
  intros Hrun Hfail Hstatus.
  pose proof (dispatch_failing_prefix (pre ++ [a]) [] le w tr _ w1 Hrun Hfail) as H.
  rewrite app_nil_r in H. rewrite H. clear H.
  assert (Hlen : List.length xs = List.length pre).
  { apply replay_length in Hrun. rewrite length_map, !length_app in Hrun.
    simpl in Hrun. lia. }
  rewrite (lastFailure_snoc pre le a xs x Hlen).
  simpl. unfold ret. f_equal.
  destruct x as [f | s t]; simpl.
  - reflexivity.
  - unfold exhausted, upstreamError. simpl.
    destruct (resultOf_fields a s t) as [-> [-> ->]].
    unfold orElse502. specialize (Hstatus s t eq_refl).
    destruct (Z.eqb_spec s 0); [contradiction | reflexivity].
Qed.

End Dispatch.

(** The worked example of the specification: both calls to [a.test] answer
    500, the POST to [b.test] answers 200 with a JSON body; the GET to
    [b.test] is never made. *)
Lemma first_success_wins_witness :
  let out :=
    Script.runDispatch Script.twoTargets
      (Script.candidates Script.twoTargets "AB12" "Jo")
      [FetchResolved 500 (TextOk "oops"); FetchResolved 500 (TextOk "oops");
       FetchResolved 200 (TextOk Script.roomText); FetchResolved 200 (TextOk "{}")] in
  fst out = (200, Joined 200 "POST https://b.test" (JObj [("room", JStr "x")])) /\
  world (snd out) = [FetchResolved 200 (TextOk "{}")] /\
  map (fun e => fc_url (fst e)) (trace (snd out)) =
  ["https://a.test"; "https://a.test?code=AB12&name=Jo"; "https://b.test"].
Proof.
  pose (q := "code=AB12&name=Jo").
  destruct (first_success_wins
              Script.World Script.fetch Script.JSON_parse Script.JSON_stringify
              Script.twoTargets
              [postAttempt "https://a.test" "AB12" "Jo"; getAttempt "https://a.test" q]
              (postAttempt "https://b.test" "AB12" "Jo")
              [getAttempt "https://b.test" q]
              noAttempts
              [FetchResolved 500 (TextOk "oops"); FetchResolved 500 (TextOk "oops");
               FetchResolved 200 (TextOk Script.roomText); FetchResolved 200 (TextOk "{}")]
              []
              [FetchResolved 500 (TextOk "oops"); FetchResolved 500 (TextOk "oops")]
              [FetchResolved 200 (TextOk Script.roomText); FetchResolved 200 (TextOk "{}")]
              200 (TextOk Script.roomText)
              [FetchResolved 200 (TextOk "{}")]
              eq_refl eq_refl eq_refl eq_refl) as [Hres [Hworld [Htrace _]]].
  split; [exact Hres |]. split; [exact Hworld |].
  change (map (fun e : FetchCall * Exchange => fc_url (fst e))
              (trace (snd (Script.runDispatch Script.twoTargets
                 (Script.candidates Script.twoTargets "AB12" "Jo")
                 [FetchResolved 500 (TextOk "oops"); FetchResolved 500 (TextOk "oops");
                  FetchResolved 200 (TextOk Script.roomText);
                  FetchResolved 200 (TextOk "{}")]))) = 
          ["https://a.test"; "https://a.test?code=AB12&name=Jo"; "https://b.test"]).
  unfold Script.runDispatch, Script.start.
  change (Script.candidates Script.twoTargets "AB12" "Jo")
    with ([postAttempt "https://a.test" "AB12" "Jo"; getAttempt "https://a.test" q]
            ++ postAttempt "https://b.test" "AB12" "Jo" :: [getAttempt "https://b.test" q])%list.
  rewrite Htrace. reflexivity.
Defined.

(** The same run seen from the caller: the response of the handler. *)
Example spec_example_response :
  fst (Script.runHandler Script.twoTargets (Script.joinRequest "AB12" "Jo")
         [FetchResolved 500 (TextOk "oops"); FetchResolved 500 (TextOk "oops");
          FetchResolved 200 (TextOk Script.roomText)]) =
  Sent {| headers := [("Access-Control-Allow-Origin", "*");
                      ("Access-Control-Allow-Methods", "POST,OPTIONS");
                      ("Access-Control-Allow-Headers", "Content-Type")];
          statusCode := 200;
          payload := Joined 200 "POST https://b.test" (JObj [("room", JStr "x")]) |}.
Proof. reflexivity. Qed.

(** All four candidates of two targets fail; the last one answers 503 with a
    body that is no JSON. *)
Lemma exhaustion_reports_last_failure_witness :
  fst (Script.runDispatch Script.twoTargets
         (Script.candidates Script.twoTargets "AB12" "Jo")
         [FetchResolved 500 (TextOk "oops"); FetchRejected DeadlineExpired;
          FetchResolved 404 (TextOk "{}"); FetchResolved 503 (TextOk "down")]) =
  (503, NotJoined "Upstream error via GET https://b.test?code=AB12&name=Jo"
                  (JStr "down")).
Proof.
  pose (q := "code=AB12&name=Jo").
  assert (Hstatus : forall s t,
             FetchResolved 503 (TextOk "down") = FetchResolved s t -> s <> 0).
  { intros s t H. injection H as <- _. lia. }
  pose proof (exhaustion_reports_last_failure
                Script.World Script.fetch Script.JSON_parse Script.JSON_stringify
                Script.twoTargets
                [postAttempt "https://a.test" "AB12" "Jo"; getAttempt "https://a.test" q;
                 postAttempt "https://b.test" "AB12" "Jo"]
                (getAttempt "https://b.test" q)
                noAttempts
                [FetchResolved 500 (TextOk "oops"); FetchRejected DeadlineExpired;
                 FetchResolved 404 (TextOk "{}"); FetchResolved 503 (TextOk "down")]
                []
                [FetchResolved 500 (TextOk "oops"); FetchRejected DeadlineExpired;
                 FetchResolved 404 (TextOk "{}")]
                (FetchResolved 503 (TextOk "down"))
                []
                eq_refl eq_refl Hstatus) as H.
  exact (f_equal fst H).
Defined.

(** ** Failures and the fallback order *)

Section Fallback.

Variable World : Type.
Variable fetch : FetchCall -> World -> Exchange * World.
Variable JSON_parse : string -> option json.
Variable JSON_stringify : json -> string.
Variable cfg : Config.

Local Notation opts := (optsOf JSON_stringify cfg).
Local Notation loop := (dispatch fetch JSON_parse JSON_stringify cfg).
Local Notation step := (dispatch_step World fetch JSON_parse JSON_stringify cfg).
Local Notation result := (resultOf JSON_parse).
Local Notation run w tr := {| world := w; trace := tr |}.

(** The loop only ever appends to the trace, and a loop over a non-empty list
    starts with the call of its first descriptor. *)
Lemma dispatch_trace_extends (attempts : list Attempt) :
  forall (le : LastError.t) (w : World) (tr : list (FetchCall * Exchange)),
  exists new,
    trace (snd (loop attempts le (run w tr))) = (tr ++ new)%list /\
    match attempts with
    | [] => new = []
    | b :: _ => exists x' new', new = (opts b, x') :: new'
    end.
Proof.
  induction attempts as [|a rest IH]; intros le w tr.
  - exists []. simpl. rewrite app_nil_r. split; reflexivity.
  - destruct (fetch (opts a) w) as [x w1] eqn:E.
    rewrite (step a rest le w tr x w1 E).
    assert (Hgo : forall le',
               exists new,
                 trace (snd (loop rest le' (run w1 (tr ++ [(opts a, x)])))) =
                 (tr ++ new)%list /\
                 exists x' new', new = (opts a, x') :: new').
    { intros le'. destruct (IH le' w1 (tr ++ [(opts a, x)])%list) as [new [Hnew _]].
      exists ((opts a, x) :: new). rewrite Hnew, <- app_assoc. simpl.
      split; [reflexivity | eauto]. }
    destruct x as [f | s t]; [apply Hgo |].
    destruct (responseOk s); [| apply Hgo].
    exists [(opts a, FetchResolved s t)]. simpl. split; [reflexivity | eauto].
Qed.

(** C7 (amended): a rejected [fetch] (the deadline expired or the network
    failed before a response was received) is recorded as the last failure,
    with status 502, a message naming the label and no body, and the loop
    goes on with the remaining candidates, exactly as after a response with a
    non-success status; in both cases the next call made is the one of the
    next candidate.  A deadline or failure that strikes while the body of a
    received response is read does not reject the attempt: the body is taken
    as empty and the received status decides. *)
Theorem rejected_call_advances_like_bad_status
        (a : Attempt) (rest : list Attempt) (le : LastError.t) (w : World)
        (tr : list (FetchCall * Exchange)) (x : Exchange) (w1 : World) :
  fetch (opts a) w = (x, w1) ->
  let after := run w1 (tr ++ [(opts a, x)]) in
  (forall f, x = FetchRejected f ->
     loop (a :: rest) le (run w tr) = loop rest (fetchFailed a) after) /\
  (forall s t, x = FetchResolved s t -> responseOk s = false ->
     loop (a :: rest) le (run w tr) =
     loop rest {| LastError.status := s;
                  LastError.message := "Upstream error via " ++ info a;
                  LastError.data := Some (parseData JSON_parse (readText t)) |}
          after) /\
  (unsuccessful x = true ->
   forall b rest', rest = b :: rest' ->
     exists x', nth_error (trace (snd (loop (a :: rest) le (run w tr))))
                          (List.length tr + 1) = Some (opts b, x')) /\
  (forall s f, x = FetchResolved s (TextFailed f) -> responseOk s = true ->
     loop (a :: rest) le (run w tr) = ((200, Joined s (info a) emptyObject), after)).
Proof.
  intros E after. pose proof (step a rest le w tr x w1 E) as Hstep.
  repeat split.
  - intros f ->. exact Hstep.
  - intros s t -> Hs. rewrite Hstep, Hs. unfold upstreamError.
    destruct (resultOf_fields JSON_parse a s t) as [-> [-> ->]]. reflexivity.
  - intros Hx b rest' ->.
    rewrite (dispatch_step_unsuccessful World fetch JSON_parse JSON_stringify cfg
               a (b :: rest') le w tr x w1 E Hx).
    destruct (dispatch_trace_extends (b :: rest') (failureOf JSON_parse a x) w1
                (tr ++ [(opts a, x)])%list) as [new [Hnew [x' [new' ->]]]].
    exists x'. rewrite Hnew, <- app_assoc. simpl.
    rewrite nth_error_app2 by lia.
    replace (List.length tr + 1 - List.length tr)%nat with 1%nat by lia.
    reflexivity.
  - intros s f -> Hs. rewrite Hstep, Hs. unfold joined.
    destruct (resultOf_fields JSON_parse a s (TextFailed f)) as [-> [-> ->]].
    reflexivity.
Qed.

(** Whenever the trace of the loop shows an exchange with a success status,
    the loop answered 200 with that exchange's status as [upstreamStatus]. *)
Lemma dispatch_success_is_200 (attempts : list Attempt) :
  forall (le : LastError.t) (w : World) (tr : list (FetchCall * Exchange)),
  exists new,
    trace (snd (loop attempts le (run w tr))) = (tr ++ new)%list /\
    forall c s t,
      In (c, FetchResolved s t) new -> responseOk s = true ->
      exists via d, fst (loop attempts le (run w tr)) = (200, Joined s via d).
Proof.
  induction attempts as [|a rest IH]; intros le w tr.
  - exists []. simpl. rewrite app_nil_r. split; [reflexivity | intros ? ? ? []].
  - destruct (fetch (opts a) w) as [x w1] eqn:E.
    rewrite (step a rest le w tr x w1 E).
    assert (Hgo : unsuccessful x = true ->
               forall le',
               exists new,
                 trace (snd (loop rest le' (run w1 (tr ++ [(opts a, x)])))) =
                 (tr ++ new)%list /\
                 forall c s t,
                   In (c, FetchResolved s t) new -> responseOk s = true ->
                   exists via d,
                     fst (loop rest le' (run w1 (tr ++ [(opts a, x)]))) =
                     (200, Joined s via d)).
    { intros Hx le'.
      destruct (IH le' w1 (tr ++ [(opts a, x)])%list) as [new [Hnew Hin]].
      exists ((opts a, x) :: new). rewrite Hnew, <- app_assoc. simpl.
      split; [reflexivity |]. intros c s t [Heq | Hc] Hs.
      - injection Heq as _ ->. simpl in Hx. rewrite Hs in Hx. discriminate.
      - exact (Hin c s t Hc Hs). }
    destruct x as [f | s0 t0]; [apply Hgo; reflexivity |].
    destruct (responseOk s0) eqn:Hs0.
    + exists [(opts a, FetchResolved s0 t0)]. simpl. split; [reflexivity |].
      intros c s t [Heq | []] _. injection Heq as _ <- <-.
      unfold joined. destruct (resultOf_fields JSON_parse a s0 t0) as [-> _].
      eauto.
    + apply Hgo. simpl. rewrite Hs0. reflexivity.
Qed.

(** Once a candidate has been tried, the failure response never carries the
    message of the empty candidate list. *)
Lemma dispatch_names_a_candidate (attempts : list Attempt) :
  forall (le : LastError.t) (r : Run World) (d : json),
    (attempts = [] -> LastError.message le <> "No attempts made.") ->
    snd (fst (loop attempts le r)) <> NotJoined "No attempts made." d.
Proof.
  induction attempts as [|a rest IH]; intros le [w tr] d Hle.
  - simpl. intros H. injection H as Hmsg _. exact (Hle eq_refl Hmsg).
  - destruct (fetch (opts a) w) as [x w1] eqn:E.
    rewrite (step a rest le w tr x w1 E).
    destruct x as [f | s t].
    + apply IH. intros _. discriminate.
    + destruct (responseOk s); [discriminate |].
      apply IH. intros _. discriminate.
Qed.

End Fallback.

(** The POST to the first target runs out of time before any response; the
    loop goes on and the GET to the same target succeeds. *)
Lemma rejected_call_advances_like_bad_status_witness :
  fst (Script.runDispatch Script.twoTargets
         (Script.candidates Script.twoTargets "AB12" "Jo")
         [FetchRejected DeadlineExpired; FetchResolved 200 (TextOk Script.roomText)]) =
  (200, Joined 200 "GET https://a.test?code=AB12&name=Jo" (JObj [("room", JStr "x")])).
Proof.
  pose (q := "code=AB12&name=Jo").
  pose proof (rejected_call_advances_like_bad_status
                Script.World Script.fetch Script.JSON_parse Script.JSON_stringify
                Script.twoTargets
                (postAttempt "https://a.test" "AB12" "Jo")
                [getAttempt "https://a.test" q;
                 postAttempt "https://b.test" "AB12" "Jo"; getAttempt "https://b.test" q]
                noAttempts
                [FetchRejected DeadlineExpired; FetchResolved 200 (TextOk Script.roomText)]
                []
                (FetchRejected DeadlineExpired)
                [FetchResolved 200 (TextOk Script.roomText)]
                eq_refl) as [Hrej _].
  exact (f_equal fst (Hrej DeadlineExpired eq_refl)).
Defined.

(** C7 as stated fails: the response head of the first candidate arrives with
    status 200 and the deadline expires while its body is read.  The
    execution ran out of time, yet the loop answers success with an empty
    object, makes no second call, and so does not behave as if it had
    recorded a failure and gone on to the remaining candidates. *)
Lemma deadline_during_body_read_is_a_success :
  let x := FetchResolved 200 (TextFailed DeadlineExpired) in
  let next := FetchResolved 200 (TextOk Script.roomText) in
  let attempts := Script.candidates Script.twoTargets "AB12" "Jo" in
  let out := Script.runDispatch Script.twoTargets attempts [x; next] in
  faulted x = true /\
  fst out = (200, Joined 200 "POST https://a.test" emptyObject) /\
  world (snd out) = [next] /\
  List.length (trace (snd out)) = 1%nat /\
  ~ (exists le,
        out = dispatch Script.fetch Script.JSON_parse Script.JSON_stringify
                Script.twoTargets (tl attempts) le
                {| world := [next];
                   trace := [(optsOf Script.JSON_stringify Script.twoTargets
                                (postAttempt "https://a.test" "AB12" "Jo"), x)] |}).
Proof.
  repeat split.
  intros [le H].
  apply (f_equal (fun o => List.length (trace (snd o)))) in H.
  discriminate H.
Qed.

(** ** One attempt *)

Lemma parseData_empty (parse : string -> option json) :
  parseData parse "" = emptyObject.
Proof. reflexivity. Qed.

Lemma parseData_nonempty (parse : string -> option json) (raw : string) :
  raw <> "" ->
  parseData parse raw = match parse raw with Some v => v | None => JStr raw end.
Proof. destruct raw; [congruence | reflexivity]. Qed.

Section Execution.

Variable World : Type.
Variable fetch : FetchCall -> World -> Exchange * World.
Variable JSON_parse : string -> option json.
Variable JSON_stringify : json -> string.
Variable cfg : Config.

Local Notation opts := (optsOf JSON_stringify cfg).
Local Notation exec := (execute fetch JSON_parse JSON_stringify cfg).
Local Notation loop := (dispatch fetch JSON_parse JSON_stringify cfg).
Local Notation result := (resultOf JSON_parse).
Local Notation run w tr := {| world := w; trace := tr |}.

(** C5 (amended): the body of the outcome is the parsed value when the text
    parses as JSON, the raw text itself when the text is not empty and does
    not parse, and the empty object when the text is empty or reading it
    failed; on a success status that body is the [data] of the response,
    unchanged. *)
Theorem body_is_parsed_or_raw_or_empty
        (a : Attempt) (w : World) (tr : list (FetchCall * Exchange))
        (s : Z) (t : TextRead) (w1 : World) :
  fetch (opts a) w = (FetchResolved s t, w1) ->
  exists res,
    exec a (run w tr) =
      (Returned res, run w1 (tr ++ [(opts a, FetchResolved s t)])) /\
    (forall raw v, t = TextOk raw -> raw <> "" -> JSON_parse raw = Some v ->
                   Result.data res = v) /\
    (forall raw, t = TextOk raw -> raw <> "" -> JSON_parse raw = None ->
                 Result.data res = JStr raw) /\
    (t = TextOk "" -> Result.data res = JObj []) /\
    (forall f, t = TextFailed f -> Result.data res = JObj []) /\
    (responseOk s = true ->
     forall rest le,
       fst (loop (a :: rest) le (run w tr)) =
       (200, Joined s (info a) (Result.data res))).
Proof.
  intros E. exists (result a s t).
  destruct (resultOf_fields JSON_parse a s t) as [Hst [Hdata Hinfo]].
  split; [exact (execute_eq World fetch JSON_parse JSON_stringify cfg a w tr _ w1 E) |].
  rewrite Hdata. repeat split.
  - intros raw v -> Hraw Hv. simpl. rewrite (parseData_nonempty _ raw Hraw), Hv.
    reflexivity.
  - intros raw -> Hraw Hnone. simpl. rewrite (parseData_nonempty _ raw Hraw), Hnone.
    reflexivity.
  - intros ->. reflexivity.
  - intros f ->. reflexivity.
  - intros Hs rest le.
    rewrite (dispatch_step World fetch JSON_parse JSON_stringify cfg
               a rest le w tr _ w1 E), Hs.
    unfold joined. rewrite Hst, Hdata, Hinfo. reflexivity.
Qed.

(** C6: once the upstream has responded, the outcome is a returned result and
    not an exception; its [ok] flag is true exactly when the status lies in
    200..299, and whatever the status is it carries the status, the label
    and the body as parsed: the value [JSON.parse] gives for the text, the
    text itself when it is no JSON, the empty object when there is no text.
    The failure recorded from such a result keeps status and body and
    differs from the one recorded for an unreachable upstream, also in the
    response finally sent. *)
Theorem status_alone_decides_success
        (a : Attempt) (w : World) (tr : list (FetchCall * Exchange))
        (s : Z) (t : TextRead) (w1 : World) :
  fetch (opts a) w = (FetchResolved s t, w1) ->
  exists res,
    exec a (run w tr) =
      (Returned res, run w1 (tr ++ [(opts a, FetchResolved s t)])) /\
    (Result.ok res = true <-> 200 <= s <= 299) /\
    Result.status res = s /\
    (forall raw v, t = TextOk raw -> raw <> "" -> JSON_parse raw = Some v ->
                   Result.data res = v) /\
    (forall raw, t = TextOk raw -> raw <> "" -> JSON_parse raw = None ->
                 Result.data res = JStr raw) /\
    (t = TextOk "" \/ (exists f, t = TextFailed f) -> Result.data res = JObj []) /\
    Result.info res = info a /\
    (Result.ok res = false ->
     forall rest le,
       loop (a :: rest) le (run w tr) =
       loop rest {| LastError.status := s;
                    LastError.message := "Upstream error via " ++ info a;
                    LastError.data := Some (Result.data res) |}
            (run w1 (tr ++ [(opts a, FetchResolved s t)]))) /\
    (forall b, upstreamError res <> fetchFailed b /\
               snd (exhausted (upstreamError res)) <> snd (exhausted (fetchFailed b))).
Proof.
  intros E. exists (result a s t).
  destruct (resultOf_fields JSON_parse a s t) as [Hst [Hdata Hinfo]].
  split; [exact (execute_eq World fetch JSON_parse JSON_stringify cfg a w tr _ w1 E) |].
  split.
  { rewrite resultOf_ok. unfold responseOk.
    rewrite andb_true_iff, !Z.leb_le. reflexivity. }
  split; [exact Hst |].
  split.
  { intros raw v -> Hraw Hv. rewrite Hdata. simpl.
    rewrite (parseData_nonempty _ raw Hraw), Hv. reflexivity. }
  split.
  { intros raw -> Hraw Hnone. rewrite Hdata. simpl.
    rewrite (parseData_nonempty _ raw Hraw), Hnone. reflexivity. }
  split.
  { intros [-> | [f ->]]; rewrite Hdata; reflexivity. }
  split; [exact Hinfo |].
  split.
  { rewrite resultOf_ok. intros Hs rest le.
    rewrite (dispatch_step World fetch JSON_parse JSON_stringify cfg
               a rest le w tr _ w1 E), Hs.
    unfold upstreamError. rewrite Hst, Hinfo. reflexivity. }
  intros b. split; discriminate.
Qed.

End Execution.

(** An upstream answers 200 with a JSON object, another 502 with a text that
    is no JSON. *)
Lemma body_is_parsed_or_raw_or_empty_witness :
  fst (Script.runDispatch Script.twoTargets
         (Script.candidates Script.twoTargets "AB12" "Jo")
         [FetchResolved 200 (TextOk Script.roomText)]) =
  (200, Joined 200 "POST https://a.test" (JObj [("room", JStr "x")])).
Proof.
  pose (q := "code=AB12&name=Jo").
  destruct (body_is_parsed_or_raw_or_empty
              Script.World Script.fetch Script.JSON_parse Script.JSON_stringify
              Script.twoTargets
              (postAttempt "https://a.test" "AB12" "Jo")
              [FetchResolved 200 (TextOk Script.roomText)] []
              200 (TextOk Script.roomText) [] eq_refl)
    as [res [_ [Hparsed [_ [_ [_ Hpass]]]]]].
  rewrite <- (Hparsed Script.roomText (JObj [("room", JStr "x")]) eq_refl
                      ltac:(discriminate) eq_refl).
  exact (Hpass eq_refl
               [getAttempt "https://a.test" q;
                postAttempt "https://b.test" "AB12" "Jo"; getAttempt "https://b.test" q]
               noAttempts).
Defined.

(** C5 as stated fails on the empty text: it is no JSON, yet the body handed
    on is the empty object and not the raw text. *)
Lemma empty_text_is_not_passed_through :
  let out :=
    Script.runDispatch Script.twoTargets
      (Script.candidates Script.twoTargets "AB12" "Jo")
      [FetchResolved 200 (TextOk "")] in
  Script.JSON_parse "" = None /\
  fst out = (200, Joined 200 "POST https://a.test" (JObj [])) /\
  fst out <> (200, Joined 200 "POST https://a.test" (JStr "")).
Proof.
  repeat split. discriminate.
Qed.

(** The upstream answers 404 with a JSON object as its body. *)
Lemma status_alone_decides_success_witness :
  exists res,
    fst (execute Script.fetch Script.JSON_parse Script.JSON_stringify
           Script.twoTargets (postAttempt "https://a.test" "AB12" "Jo")
           (Script.start [FetchResolved 404 (TextOk Script.roomText)])) = Returned res /\
    Result.ok res = false /\
    Result.status res = 404 /\
    Result.data res = JObj [("room", JStr "x")] /\
    Result.info res = "POST https://a.test".
Proof.
  destruct (status_alone_decides_success
              Script.World Script.fetch Script.JSON_parse Script.JSON_stringify
              Script.twoTargets
              (postAttempt "https://a.test" "AB12" "Jo")
              [FetchResolved 404 (TextOk Script.roomText)] []
              404 (TextOk Script.roomText) [] eq_refl)
    as [res [Hexec [Hok [Hst [Hparsed [_ [_ [Hinfo _]]]]]]]].
  exists res. split; [exact (f_equal fst Hexec) |].
  split; [| split; [exact Hst | split; [| exact Hinfo]]].
  - destruct (Result.ok res); [| reflexivity].
    destruct (proj1 Hok eq_refl) as [_ Hhi]. exfalso. lia.
  - apply (Hparsed Script.roomText); [reflexivity | discriminate | reflexivity].
Defined.

(** ** The handler as a whole *)

Lemma missing_is_falsy (f : option string) :
  missing f -> truthyField f = false.
Proof. intros [-> | ->]; reflexivity. Qed.

Lemma present_is_truthy (f : option string) (v : string) :
  f = Some v -> v <> "" -> truthyField f = true /\ textOf f = v.
Proof. intros -> Hv. destruct v; [congruence | split; reflexivity]. Qed.

Section Endpoint.

Variable World : Type.
Variable fetch : FetchCall -> World -> Exchange * World.
Variable JSON_parse : string -> option json.
Variable JSON_stringify : json -> string.
Variable cfg : Config.

Local Notation handle := (handler fetch JSON_parse JSON_stringify cfg).
Local Notation loop := (dispatch fetch JSON_parse JSON_stringify cfg).
Local Notation run w tr := {| world := w; trace := tr |}.

(** The handler on a POST request whose two fields are present and whose
    candidates could be built. *)
Lemma handler_join (req : Req.t) (r : Run World) (c n : string)
      (attempts : list Attempt) :
  Req.method req = "POST" ->
  Req.code (fieldsOf req) = Some c -> c <> "" ->
  Req.name (fieldsOf req) = Some n -> n <> "" ->
  buildAttempts cfg c n = Some attempts ->
  handle req r =
  (Sent (respond cfg (fst (fst (loop attempts noAttempts r)))
                     (snd (fst (loop attempts noAttempts r)))),
   snd (loop attempts noAttempts r)).
Proof.
  intros Hm Hc Hc' Hn Hn' Hb. unfold handler. rewrite Hm. simpl.
  destruct (present_is_truthy _ c Hc Hc') as [-> ->].
  destruct (present_is_truthy _ n Hn Hn') as [-> ->].
  simpl. rewrite Hb. unfold bind, ret.
  destruct (loop attempts noAttempts r) as [[st p] r1].
  reflexivity.
Qed.

(** C8 (amended): a request whose code or name is absent or empty never
    reaches the network, whatever its method: the world is untouched and no
    call is recorded; when it is a POST, it is answered 400 with the error
    "Missing code or name". *)
Theorem missing_code_or_name_is_rejected (req : Req.t) (r : Run World) :
  missing (Req.code (fieldsOf req)) \/ missing (Req.name (fieldsOf req)) ->
  snd (handle req r) = r /\
  (Req.method req = "POST" ->
   fst (handle req r) = Sent (respond cfg 400 (ErrorOnly "Missing code or name")) /\
   statusCode (respond cfg 400 (ErrorOnly "Missing code or name")) = 400).
Proof.
  intros Hmiss.
  assert (Hgate : negb (truthyField (Req.code (fieldsOf req)))
                  || negb (truthyField (Req.name (fieldsOf req))) = true).
  { apply orb_true_iff.
    destruct Hmiss as [H | H]; [left | right];
      rewrite (missing_is_falsy _ H); reflexivity. }
  unfold handler. split.
  - destruct (String.eqb (Req.method req) "OPTIONS"); [reflexivity |].
    destruct (negb (String.eqb (Req.method req) "POST")); [reflexivity |].
    rewrite Hgate. reflexivity.
  - intros ->. simpl. rewrite Hgate. split; reflexivity.
Qed.

(** C9 (amended): with neither an explicit list nor a base configured, a
    join request whose code and name hold no unpaired surrogate has the
    empty candidate sequence and is answered at once with status 500 and the
    message "No attempts made.", the world untouched and no call recorded;
    no run of the loop over a non-empty candidate list ever ends with that
    message, so the two outcomes can be told apart. *)
Theorem no_candidates_is_an_immediate_500 (req : Req.t) (r : Run World)
        (c n : string) :
  Req.method req = "POST" ->
  Req.code (fieldsOf req) = Some c -> c <> "" ->
  Req.name (fieldsOf req) = Some n -> n <> "" ->
  URI.wellFormed c = true ->
  URI.wellFormed n = true ->
  UPSTREAM_URLS cfg = [] ->
  UPSTREAM_BASE cfg = "" ->
  buildAttempts cfg c n = Some [] /\
  handle req r = (Sent (respond cfg 500 (NotJoined "No attempts made." JNull)), r) /\
  forall (attempts : list Attempt) (r' : Run World) (d : json),
    attempts <> [] ->
    snd (fst (loop attempts noAttempts r')) <> NotJoined "No attempts made." d.
Proof.
  intros Hm Hc Hc' Hn Hn' Hwc Hwn Hurls Hbase.
  assert (Hnone : buildAttempts cfg c n = Some []).
  { rewrite buildAttempts_targets.
    rewrite (proj2 (queryOf_some c n _) (conj Hwc (conj Hwn eq_refl))).
    unfold targetsOf. rewrite Hurls, Hbase. reflexivity. }
  split; [exact Hnone |]. split.
  - rewrite (handler_join req r c n [] Hm Hc Hc' Hn Hn' Hnone). reflexivity.
  - intros attempts r' d Hne.
    apply dispatch_names_a_candidate. intros H. contradiction.
Qed.

(** C10: whenever some attempt of a request met a success status, whatever
    that status is within 200..299, a response is sent to the caller, with
    HTTP status 200 and the success shape, and the upstream status appears
    as its [upstreamStatus] field. *)
Theorem success_always_answers_200 (req : Req.t) (w : World)
        (call : FetchCall) (s : Z) (t : TextRead) :
  In (call, FetchResolved s t) (trace (snd (handle req (run w [])))) ->
  responseOk s = true ->
  exists resp,
    fst (handle req (run w [])) = Sent resp /\
    statusCode resp = 200 /\
    exists via d, payload resp = Joined s via d.
Proof.
  unfold handler.
  destruct (String.eqb (Req.method req) "OPTIONS"); [intros [] |].
  destruct (negb (String.eqb (Req.method req) "POST")); [intros [] |].
  destruct (negb (truthyField (Req.code (fieldsOf req)))
            || negb (truthyField (Req.name (fieldsOf req)))); [intros [] |].
  destruct (buildAttempts cfg _ _) as [attempts |]; [| intros []].
  unfold bind, ret.
  destruct (dispatch_success_is_200 World fetch JSON_parse JSON_stringify cfg
              attempts noAttempts w []) as [new [Htrace Hin]].
  destruct (loop attempts noAttempts (run w [])) as [[st p] r1].
  simpl in *. subst. intros Hcall Hs.
  destruct (Hin call s t Hcall Hs) as [via [d Heq]].
  injection Heq as -> ->. exists (respond cfg 200 (Joined s via d)).
  split; [reflexivity |]. split; [reflexivity |]. exists via, d. reflexivity.
Qed.

End Endpoint.

(** A request without a name. *)
Lemma missing_code_or_name_is_rejected_witness :
  Script.runHandler Script.twoTargets
    {| Req.method := "POST";
       Req.body := Some {| Req.code := Some "AB12"; Req.name := Some "" |} |}
    [FetchResolved 200 (TextOk "{}")] =
  (Sent {| headers := corsHeaders Script.twoTargets; statusCode := 400;
           payload := ErrorOnly "Missing code or name" |},
   Script.start [FetchResolved 200 (TextOk "{}")]).
Proof.
  pose (req := {| Req.method := "POST";
                  Req.body := Some {| Req.code := Some "AB12"; Req.name := Some "" |} |}).
  assert (Hmiss : missing (Req.code (fieldsOf req)) \/ missing (Req.name (fieldsOf req))).
  { right. right. reflexivity. }
  destruct (missing_code_or_name_is_rejected
              Script.World Script.fetch Script.JSON_parse Script.JSON_stringify
              Script.twoTargets req
              (Script.start [FetchResolved 200 (TextOk "{}")]) Hmiss)
    as [Hrun Hpost].
  destruct (Hpost eq_refl) as [Hresp _].
  unfold Script.runHandler. fold req.
  rewrite (surjective_pairing (handler _ _ _ _ req _)), Hrun, Hresp.
  reflexivity.
Defined.

(** C8 as stated fails: a pre-flight request carries no body, so its code
    and name are absent, and it is answered 204, which is no client error;
    a GET request without them is answered 405, not 400. *)
Lemma requests_without_fields_are_not_all_answered_400 :
  let preflight := {| Req.method := "OPTIONS"; Req.body := None |} in
  let get := {| Req.method := "GET"; Req.body := None |} in
  missing (Req.code (fieldsOf preflight)) /\
  missing (Req.code (fieldsOf get)) /\
  fst (Script.runHandler Script.twoTargets preflight []) =
    Sent {| headers := corsHeaders Script.twoTargets; statusCode := 204;
            payload := NoContent |} /\
  fst (Script.runHandler Script.twoTargets get []) =
    Sent {| headers := corsHeaders Script.twoTargets; statusCode := 405;
            payload := ErrorOnly "Use POST /api/join with JSON { code, name }" |}.
Proof. repeat split; left; reflexivity. Qed.

(** A well-formed request to a deployment without any upstream. *)
Lemma no_candidates_is_an_immediate_500_witness :
  Script.runHandler Script.unconfigured (Script.joinRequest "AB12" "Jo")
    [FetchResolved 200 (TextOk "{}")] =
  (Sent {| headers := corsHeaders Script.unconfigured; statusCode := 500;
           payload := NotJoined "No attempts made." JNull |},
   Script.start [FetchResolved 200 (TextOk "{}")]).
Proof.
  assert (Hc : "AB12" <> "") by discriminate.
  assert (Hn : "Jo" <> "") by discriminate.
  exact (proj1 (proj2 (no_candidates_is_an_immediate_500
                         Script.World Script.fetch Script.JSON_parse
                         Script.JSON_stringify Script.unconfigured
                         (Script.joinRequest "AB12" "Jo")
                         (Script.start [FetchResolved 200 (TextOk "{}")])
                         "AB12" "Jo" eq_refl eq_refl Hc eq_refl Hn
                         eq_refl eq_refl eq_refl eq_refl))).
Defined.

(** C9 as stated fails: with nothing configured, a request whose name is the
    unpaired surrogate U+D800 is not answered 500: the query is computed
    before the empty list of URLs is looked at, the exception escapes the
    handler and no response is sent. *)
Lemma lone_surrogate_gets_no_500 :
  UPSTREAM_URLS Script.unconfigured = [] /\
  UPSTREAM_BASE Script.unconfigured = "" /\
  truthy Script.loneSurrogate = true /\
  Script.runHandler Script.unconfigured
    (Script.joinRequest "AB12" Script.loneSurrogate)
    [FetchResolved 200 (TextOk "{}")] =
  (Uncaught URIError, Script.start [FetchResolved 200 (TextOk "{}")]).
Proof. repeat split. Qed.

(** The upstream answers 201: the caller still sees 200, with 201 inside. *)
Lemma success_always_answers_200_witness :
  exists resp,
    fst (Script.runHandler Script.twoTargets
           (Script.joinRequest "AB12" "Jo")
           [FetchResolved 201 (TextOk "{}")]) = Sent resp /\
    statusCode resp = 200 /\
    exists via d, payload resp = Joined 201 via d.
Proof.
  apply (success_always_answers_200
           Script.World Script.fetch Script.JSON_parse Script.JSON_stringify
           Script.twoTargets (Script.joinRequest "AB12" "Jo")
           [FetchResolved 201 (TextOk "{}")]
           (optsOf Script.JSON_stringify Script.twoTargets
                   (postAttempt "https://a.test" "AB12" "Jo"))
           201 (TextOk "{}")).
  - left. reflexivity.
  - reflexivity.
Defined.

(** * Further properties of the code *)

(** ** The candidate list *)

Lemma post_urls_of_pairs (code name q : string) (urls : list string) :
  map url (filter (fun a => match method a with POST => true | GET => false end)
                  (flat_map (pushBoth code name q) urls)) = urls.
Proof.
  induction urls as [|u urls IH]; [reflexivity |].
  simpl. f_equal. exact IH.
Qed.

(** X1: an explicit target list takes precedence in both places where
    candidates are built: [defaultCandidates] then ignores its base argument
    and does exactly what the handler does inline (the same list, or the
    same exception), and the POST candidates go to the configured URLs as
    they are, no path being appended. *)
Theorem explicit_list_overrides_base (cfg : Config) (code name : string) :
  UPSTREAM_URLS cfg <> [] ->
  (forall base, defaultCandidates cfg base code name = buildAttempts cfg code name) /\
  (forall attempts,
      buildAttempts cfg code name = Some attempts ->
      map url (filter (fun a => match method a with POST => true | GET => false end)
                      attempts) = UPSTREAM_URLS cfg).
Proof.
  intros Hurls. split.
  - intros base. unfold buildAttempts, defaultCandidates.
    destruct (UPSTREAM_URLS cfg); [congruence | reflexivity].
  - intros attempts. rewrite buildAttempts_targets. unfold targetsOf.
    destruct (UPSTREAM_URLS cfg) as [|u urls] eqn:E; [congruence |].
    destruct (queryOf code name) as [q |]; [| discriminate].
    intros H. injection H as <-.
    exact (post_urls_of_pairs code name q (u :: urls)).
Qed.

Lemma explicit_list_overrides_base_witness :
  defaultCandidates Script.twoTargets "https://ignored.test" "AB12" "Jo" =
  buildAttempts Script.twoTargets "AB12" "Jo" /\
  map url (filter (fun a => match method a with POST => true | GET => false end)
                  (Script.candidates Script.twoTargets "AB12" "Jo")) =
  ["https://a.test"; "https://b.test"].
Proof.
  assert (H : UPSTREAM_URLS Script.twoTargets <> []) by discriminate.
  destruct (explicit_list_overrides_base Script.twoTargets "AB12" "Jo" H)
    as [Hsame Hposts].
  split; [exact (Hsame "https://ignored.test") |].
  exact (Hposts (Script.candidates Script.twoTargets "AB12" "Jo") eq_refl).
Defined.

(** X2: every candidate is labelled with its method and its URL; a POST
    candidate goes to one of the targets and carries [{code, name}], a GET
    candidate carries no body and goes to a target followed by [?] and the
    query. *)
Theorem candidates_are_labelled_by_method_and_url
        (cfg : Config) (code name : string) (attempts : list Attempt) (a : Attempt) :
  buildAttempts cfg code name = Some attempts ->
  In a attempts ->
  info a = methodName (method a) ++ " " ++ url a /\
  match method a with
  | POST =>
      In (url a) (targetsOf cfg) /\
      body a = Some (JObj [("code", JStr code); ("name", JStr name)])
  | GET =>
      body a = None /\
      exists u q, In u (targetsOf cfg) /\ queryOf code name = Some q /\
                  url a = u ++ "?" ++ q
  end.
Proof.
  rewrite buildAttempts_targets.
  destruct (queryOf code name) as [q |]; [| discriminate].
  intros H Ha. injection H as <-.
  apply in_flat_map in Ha as [u [Hu [<- | [<- | []]]]]; simpl.
  - repeat split. exact Hu.
  - repeat split. exists u, q. repeat split. exact Hu.
Qed.

Lemma candidates_are_labelled_by_method_and_url_witness :
  info (getAttempt "https://x.test/v1/join" "code=AB12&name=Jo") =
  "GET https://x.test/v1/join?code=AB12&name=Jo".
Proof.
  assert (H : In (getAttempt "https://x.test/v1/join" "code=AB12&name=Jo")
                 (Script.candidates Script.baseOnly "AB12" "Jo")).
  { simpl. right. right. right. left. reflexivity. }
  exact (proj1 (candidates_are_labelled_by_method_and_url
                  Script.baseOnly "AB12" "Jo" _ _ eq_refl H)).
Defined.

(** ** The query string *)

(** Two texts without [&] that are followed by [&] and agree as a whole
    agree part by part. *)
Lemma split_at_ampersand (a : string) :
  forall (a' x x' : string),
    forallb encoded (chars a) = true ->
    forallb encoded (chars a') = true ->
    a ++ String "&" x = a' ++ String "&" x' ->
    a = a' /\ x = x'.
Proof.
  induction a as [|c a IH]; intros [|c' a'] x x' Ha Ha' H; simpl in *.
  - injection H as ->. split; reflexivity.
  - injection H as <- _. discriminate.
  - injection H as -> _. discriminate.
  - injection H as -> H.
    apply andb_true_iff in Ha as [_ Ha]. apply andb_true_iff in Ha' as [_ Ha'].
    destruct (IH a' x x' Ha Ha' H) as [-> ->]. split; reflexivity.
Qed.

(** X3: the query string determines the code and the name: two requests
    that differ in either field never produce the same query, hence never
    the same GET URL for a target, whatever characters the fields contain. *)
Theorem query_determines_code_and_name (code name code' name' q : string) :
  queryOf code name = Some q ->
  queryOf code' name' = Some q ->
  code = code' /\ name = name'.
Proof.
  intros H H'.
  apply queryOf_some in H as [_ [_ H]]. apply queryOf_some in H' as [_ [_ H']].
  rewrite H in H'. simpl in H'. injection H' as H'.
  apply split_at_ampersand in H' as [Hc Hn];
    try apply percentEncode_encoded.
  simpl in Hn. injection Hn as Hn.
  split; apply percentEncode_inj; assumption.
Qed.

Lemma query_determines_code_and_name_witness :
  "a&name=b" = "a&name=b" /\ "c" = "c".
Proof.
  exact (query_determines_code_and_name
           "a&name=b" "c" "a&name=b" "c" "code=a%26name%3Db&name=c"
           eq_refl eq_refl).
Defined.

(** X4: whatever the code and the name contain, the query consists of
    unreserved characters, [%], and the separators the code writes itself:
    exactly one [&] and exactly two [=]; a field cannot add a parameter. *)
Theorem query_has_only_its_own_separators (code name query : string) :
  queryOf code name = Some query ->
  let q := chars query in
  forallb (fun c => encoded c || Ascii.eqb c "&" || Ascii.eqb c "=") q = true /\
  List.length (filter (fun c => Ascii.eqb c "&") q) = 1%nat /\
  List.length (filter (fun c => Ascii.eqb c "=") q) = 2%nat.
Proof.
  assert (Hnone : forall (sep : ascii) (s : string),
             encoded sep = false ->
             filter (fun c => Ascii.eqb c sep)
                    (chars (URI.percentEncode s)) = []).
  { intros sep s Hsep.
    pose proof (percentEncode_encoded s) as Hs.
    induction (chars (URI.percentEncode s)) as [|c l IHl]; [reflexivity |].
    simpl in Hs. apply andb_true_iff in Hs as [Hc Hl]. simpl.
    destruct (Ascii.eqb_spec c sep) as [-> | _]; [congruence | exact (IHl Hl)]. }
  assert (Hweak : forall s,
             forallb (fun c => encoded c || Ascii.eqb c "&" || Ascii.eqb c "=")
                     (chars (URI.percentEncode s)) = true).
  { intros s. pose proof (percentEncode_encoded s) as Hs.
    induction (chars (URI.percentEncode s)) as [|c l IHl]; [reflexivity |].
    simpl in Hs. apply andb_true_iff in Hs as [Hc Hl]. simpl.
    rewrite Hc. exact (IHl Hl). }
  intros Hq. apply queryOf_some in Hq as [_ [_ ->]]. cbv zeta.
  rewrite !chars_app. repeat split.
  - rewrite !forallb_app, !Hweak. reflexivity.
  - rewrite !filter_app, !(Hnone "&"%char) by reflexivity. reflexivity.
  - rewrite !filter_app, !(Hnone "="%char) by reflexivity. reflexivity.
Qed.

(** A code that tries to smuggle a second parameter. *)
Lemma query_has_only_its_own_separators_witness :
  queryOf "a&b=c" "x y" = Some "code=a%26b%3Dc&name=x%20y" /\
  List.length (filter (fun c => Ascii.eqb c "&")
                      (chars "code=a%26b%3Dc&name=x%20y")) = 1%nat.
Proof.
  split; [reflexivity |].
  exact (proj1 (proj2 (query_has_only_its_own_separators
                         "a&b=c" "x y" "code=a%26b%3Dc&name=x%20y" eq_refl))).
Defined.

(** ** The loop and the network *)

Section Coverage.

Variable World : Type.
Variable fetch : FetchCall -> World -> Exchange * World.
Variable JSON_parse : string -> option json.
Variable JSON_stringify : json -> string.
Variable cfg : Config.

Local Notation opts := (optsOf JSON_stringify cfg).
Local Notation loop := (dispatch fetch JSON_parse JSON_stringify cfg).
Local Notation handle := (handler fetch JSON_parse JSON_stringify cfg).
Local Notation step := (dispatch_step World fetch JSON_parse JSON_stringify cfg).
Local Notation result := (resultOf JSON_parse).
Local Notation run w tr := {| world := w; trace := tr |}.

Lemma replay_cons (c : FetchCall) (cs : list FetchCall) (w : World) :
  replay fetch (c :: cs) w =
  (fst (fetch c w) :: fst (replay fetch cs (snd (fetch c w))),
   snd (replay fetch cs (snd (fetch c w)))).
Proof.
  simpl. destruct (fetch c w) as [x w1]. simpl.
  destruct (replay fetch cs w1) as [xs w2]. reflexivity.
Qed.

(** X5: the loop talks to the network only through the calls of its
    candidates, in their order, each at most once and each from the world
    the previous one left: its trace is the first k candidate calls with the
    answers the world gives to exactly those calls, for some k that does not
    exceed the number of candidates. *)
Theorem calls_follow_the_candidate_order (attempts : list Attempt) :
  forall (le : LastError.t) (w : World) (tr : list (FetchCall * Exchange)),
  exists k : nat,
    (k <= List.length attempts)%nat /\
    trace (snd (loop attempts le (run w tr))) =
      (tr ++ combine (firstn k (map opts attempts))
                     (fst (replay fetch (firstn k (map opts attempts)) w)))%list /\
    world (snd (loop attempts le (run w tr))) =
      snd (replay fetch (firstn k (map opts attempts)) w).
Proof.
  induction attempts as [|a rest IH]; intros le w tr.
  - exists 0%nat. simpl. rewrite app_nil_r. repeat split. lia.
  - destruct (fetch (opts a) w) as [x w1] eqn:E.
    rewrite (step a rest le w tr x w1 E).
    assert (Hgo : forall le',
               exists k : nat,
                 (k <= List.length (a :: rest))%nat /\
                 trace (snd (loop rest le' (run w1 (tr ++ [(opts a, x)])))) =
                   (tr ++ combine (firstn k (map opts (a :: rest)))
                                  (fst (replay fetch (firstn k (map opts (a :: rest))) w)))%list /\
                 world (snd (loop rest le' (run w1 (tr ++ [(opts a, x)])))) =
                   snd (replay fetch (firstn k (map opts (a :: rest))) w)).
    { intros le'.
      destruct (IH le' w1 (tr ++ [(opts a, x)])%list) as [k [Hk [Htr Hw]]].
      exists (S k). simpl map. rewrite firstn_cons, replay_cons, E. simpl.
      rewrite Htr, Hw, <- app_assoc. repeat split. lia. }
    destruct x as [f | s t]; [apply Hgo |].
    destruct (responseOk s); [| apply Hgo].
    exists 1%nat. simpl map. rewrite firstn_cons, firstn_0, replay_cons, E.
    simpl. repeat split. lia.
Qed.

(** The loop decides by the first answer that is a success. *)
Lemma dispatch_dichotomy (attempts : list Attempt) :
  forall (le : LastError.t) (w : World) (tr : list (FetchCall * Exchange)),
    if forallb unsuccessful (fst (replay fetch (map opts attempts) w))
    then fst (loop attempts le (run w tr)) =
         exhausted (lastFailure JSON_parse le attempts
                                (fst (replay fetch (map opts attempts) w)))
    else exists s via d,
        fst (loop attempts le (run w tr)) = (200, Joined s via d) /\
        responseOk s = true.
Proof.
  induction attempts as [|a rest IH]; intros le w tr.
  - reflexivity.
  - simpl map. rewrite replay_cons.
    destruct (fetch (opts a) w) as [x w1] eqn:E.
    rewrite (step a rest le w tr x w1 E). simpl fst. simpl snd.
    simpl forallb. simpl lastFailure.
    destruct x as [f | s t].
    + simpl. apply IH.
    + simpl. destruct (responseOk s) eqn:Hs; simpl.
      * exists s, (Result.info (result a s t)), (Result.data (result a s t)).
        unfold joined.
        destruct (resultOf_fields JSON_parse a s t) as [-> _].
        split; [reflexivity | exact Hs].
      * apply IH.
Qed.

(** X6: the caller is told [joined: true] exactly when, the candidates being
    called in order, the world answers one of them with a success status;
    otherwise the response is the failure built from the last candidate (or
    from the initial error when there is none). *)
Theorem joined_iff_some_candidate_succeeds
        (attempts : list Attempt) (le : LastError.t) (w : World)
        (tr : list (FetchCall * Exchange)) :
  let answers := fst (replay fetch (map opts attempts) w) in
  ((exists s via d, fst (loop attempts le (run w tr)) = (200, Joined s via d)) <->
   existsb (fun x => negb (unsuccessful x)) answers = true) /\
  ((exists st msg d, fst (loop attempts le (run w tr)) = (st, NotJoined msg d)) <->
   forallb unsuccessful answers = true).
Proof.
  intros answers. pose proof (dispatch_dichotomy attempts le w tr) as H.
  fold answers in H.
  assert (Hex : existsb (fun x => negb (unsuccessful x)) answers =
                negb (forallb unsuccessful answers)).
  { clear H. induction answers as [|x xs IHx]; [reflexivity |].
    simpl. rewrite IHx, negb_andb. reflexivity. }
  rewrite Hex.
  destruct (forallb unsuccessful answers); simpl.
  - split; split.
    + intros [s [via [d Hs]]]. rewrite H in Hs. discriminate.
    + discriminate.
    + reflexivity.
    + intros _. unfold exhausted in H. eauto.
  - destruct H as [s [via [d [Hs _]]]]. split; split.
    + reflexivity.
    + intros _. eauto.
    + intros [st [msg [d' Hf]]]. rewrite Hs in Hf. discriminate.
    + discriminate.
Qed.

(** A failure recorded by the loop never has a success status. *)
Lemma dispatch_status_coherent (attempts : list Attempt) :
  forall (le : LastError.t) (r : Run World),
    responseOk (LastError.status le) = false ->
    match snd (fst (loop attempts le r)) with
    | Joined s _ _ => fst (fst (loop attempts le r)) = 200 /\ responseOk s = true
    | NotJoined _ _ =>
        responseOk (fst (fst (loop attempts le r))) = false /\
        fst (fst (loop attempts le r)) <> 0
    | _ => False
    end.
Proof.
  induction attempts as [|a rest IH]; intros le [w tr] Hle.
  - simpl. unfold orElse502.
    destruct (Z.eqb_spec (LastError.status le) 0); split;
      [reflexivity | lia | exact Hle | assumption].
  - destruct (fetch (opts a) w) as [x w1] eqn:E.
    rewrite (step a rest le w tr x w1 E).
    destruct x as [f | s t].
    + apply IH. reflexivity.
    + destruct (responseOk s) eqn:Hs.
      * simpl. destruct (resultOf_fields JSON_parse a s t) as [-> _].
        split; [reflexivity | exact Hs].
      * apply IH. simpl.
        destruct (resultOf_fields JSON_parse a s t) as [-> _]. exact Hs.
Qed.

End Coverage.

(** ** The handler seen from outside *)

Section Surface.

Variable World : Type.
Variable fetch : FetchCall -> World -> Exchange * World.
Variable JSON_parse : string -> option json.
Variable JSON_stringify : json -> string.
Variable cfg : Config.

Local Notation opts := (optsOf JSON_stringify cfg).
Local Notation loop := (dispatch fetch JSON_parse JSON_stringify cfg).
Local Notation handle := (handler fetch JSON_parse JSON_stringify cfg).
Local Notation step := (dispatch_step World fetch JSON_parse JSON_stringify cfg).
Local Notation run w tr := {| world := w; trace := tr |}.

(** What the loop adds to the trace: the calls of the first candidates, one
    for each and in their order. *)
Lemma dispatch_calls (attempts : list Attempt) :
  forall (le : LastError.t) (w : World) (tr : list (FetchCall * Exchange)),
  exists new,
    trace (snd (loop attempts le (run w tr))) = (tr ++ new)%list /\
    (List.length new <= List.length attempts)%nat /\
    map fst new = firstn (List.length new) (map opts attempts) /\
    forall c x, In (c, x) new -> exists a, In a attempts /\ c = opts a.
Proof.
  induction attempts as [|a rest IH]; intros le w tr.
  - exists []. simpl. rewrite app_nil_r.
    repeat split; [lia | intros c x []].
  - destruct (fetch (opts a) w) as [x w1] eqn:E.
    rewrite (step a rest le w tr x w1 E).
    assert (Hgo : forall le',
               exists new,
                 trace (snd (loop rest le' (run w1 (tr ++ [(opts a, x)])))) =
                   (tr ++ new)%list /\
                 (List.length new <= List.length (a :: rest))%nat /\
                 map fst new = firstn (List.length new) (map opts (a :: rest)) /\
                 forall c y, In (c, y) new ->
                             exists b, In b (a :: rest) /\ c = opts b).
    { intros le'.
      destruct (IH le' w1 (tr ++ [(opts a, x)])%list)
        as [new [Htr [Hlen [Hpre Hin]]]].
      exists ((opts a, x) :: new). rewrite Htr, <- app_assoc. simpl.
      split; [reflexivity |]. split; [lia |]. split; [f_equal; exact Hpre |].
      intros c y [Heq | Hc].
      - injection Heq as <- _. exists a. split; [left |]; reflexivity.
      - destruct (Hin c y Hc) as [b [Hb ->]]. exists b.
        split; [right; exact Hb | reflexivity]. }
    destruct x as [f | s t]; [apply Hgo |].
    destruct (responseOk s); [| apply Hgo].
    exists [(opts a, FetchResolved s t)]. simpl.
    split; [reflexivity |]. split; [lia |]. split; [reflexivity |].
    intros c y [Heq | []]. injection Heq as <- _.
    exists a. split; [left |]; reflexivity.
Qed.

(** The handler answers without the loop, leaving the run as it is; or it
    answers with what the loop over the candidates gives; or building the
    candidates throws and it answers nothing, the run being left as it is. *)
Lemma handler_cases (req : Req.t) (r : Run World) :
  (snd (handle req r) = r /\
   (Req.method req <> "POST" \/
    missing (Req.code (fieldsOf req)) \/ missing (Req.name (fieldsOf req))) /\
   exists st err, (st = 204 /\ err = NoContent \/
                   st = 405 /\ err = ErrorOnly "Use POST /api/join with JSON { code, name }" \/
                   st = 400 /\ err = ErrorOnly "Missing code or name") /\
                  fst (handle req r) = Sent (respond cfg st err)) \/
  (exists c n attempts,
      Req.method req = "POST" /\
      Req.code (fieldsOf req) = Some c /\ c <> "" /\
      Req.name (fieldsOf req) = Some n /\ n <> "" /\
      buildAttempts cfg c n = Some attempts /\
      handle req r =
      (Sent (respond cfg (fst (fst (loop attempts noAttempts r)))
                         (snd (fst (loop attempts noAttempts r)))),
       snd (loop attempts noAttempts r))) \/
  (exists c n,
      Req.method req = "POST" /\
      Req.code (fieldsOf req) = Some c /\ c <> "" /\
      Req.name (fieldsOf req) = Some n /\ n <> "" /\
      buildAttempts cfg c n = None /\
      handle req r = (Uncaught URIError, r)).
Proof.
  unfold handler.
  destruct (String.eqb_spec (Req.method req) "OPTIONS") as [Ho | Ho].
  { left. split; [reflexivity |]. split.
    - left. rewrite Ho. discriminate.
    - exists 204, NoContent. auto. }
  destruct (String.eqb_spec (Req.method req) "POST") as [Hp | Hp]; simpl.
  2:{ left. split; [reflexivity |]. split; [left; exact Hp |].
      eexists _, _. split; [right; left; eauto | reflexivity]. }
  destruct (Req.code (fieldsOf req)) as [[|c0 c] |] eqn:Hc; simpl;
    try (left; split; [reflexivity |]; split;
         [right; left; unfold missing; auto |];
         eexists _, _; split; [right; right; eauto | reflexivity]).
  destruct (Req.name (fieldsOf req)) as [[|n0 n] |] eqn:Hn; simpl;
    try (left; split; [reflexivity |]; split;
         [right; right; unfold missing; auto |];
         eexists _, _; split; [right; right; eauto | reflexivity]).
  destruct (buildAttempts cfg (String c0 c) (String n0 n)) as [attempts |] eqn:Hb.
  - right. left. exists (String c0 c), (String n0 n), attempts.
    repeat split; try discriminate; try assumption.
    unfold bind, ret.
    destruct (loop attempts noAttempts r) as [[st p] r1]. reflexivity.
  - right. right. exists (String c0 c), (String n0 n).
    repeat split; try discriminate; assumption.
Qed.

(** X7: a request that is not a POST never reaches the validation nor the
    network: the pre-flight [OPTIONS] is answered 204 without content, every
    other method (the comparison is case-sensitive) 405 with a usage
    message, whatever the body holds. *)
Theorem other_methods_are_answered_at_the_door (req : Req.t) (r : Run World) :
  Req.method req <> "POST" ->
  snd (handle req r) = r /\
  (Req.method req = "OPTIONS" ->
   fst (handle req r) = Sent (respond cfg 204 NoContent)) /\
  (Req.method req <> "OPTIONS" ->
   fst (handle req r) =
   Sent (respond cfg 405 (ErrorOnly "Use POST /api/join with JSON { code, name }"))).
Proof.
  intros Hp. unfold handler.
  destruct (String.eqb_spec (Req.method req) "OPTIONS") as [Ho | Ho].
  - repeat split. intros H. contradiction.
  - destruct (String.eqb_spec (Req.method req) "POST") as [Hp' | _];
      [contradiction |].
    simpl. repeat split. intros H. contradiction.
Qed.

(** X8: every response of the handler, of whatever kind, carries the three
    CORS headers, the allowed origin being the configured one, or [*] when
    none is configured. *)
Theorem every_response_carries_the_cors_headers
        (req : Req.t) (r : Run World) (resp : Response) :
  fst (handle req r) = Sent resp ->
  headers resp =
  [("Access-Control-Allow-Origin",
    match CORS_ORIGIN cfg with EmptyString => "*" | String _ _ => CORS_ORIGIN cfg end);
   ("Access-Control-Allow-Methods", "POST,OPTIONS");
   ("Access-Control-Allow-Headers", "Content-Type")].
Proof.
  assert (Hh : forall st p, headers (respond cfg st p) =
             [("Access-Control-Allow-Origin",
               match CORS_ORIGIN cfg with
               | EmptyString => "*"
               | String _ _ => CORS_ORIGIN cfg
               end);
              ("Access-Control-Allow-Methods", "POST,OPTIONS");
              ("Access-Control-Allow-Headers", "Content-Type")]).
  { intros st p. simpl. unfold corsHeaders. destruct (CORS_ORIGIN cfg); reflexivity. }
  destruct (handler_cases req r)
    as [[_ [_ [st [err [_ ->]]]]]
       | [[c [n [attempts [_ [_ [_ [_ [_ [_ ->]]]]]]]]]
         | [c [n [_ [_ [_ [_ [_ [_ ->]]]]]]]]]];
    simpl; intros H; try discriminate; injection H as <-; apply Hh.
Qed.

(** X9: one request causes at most one call per candidate: the calls it
    makes are those of the first k candidates, in their order, for some k;
    so they are at most twice the number of configured targets, at most six
    when only a base is configured; and a request that is refused (it is no
    POST, a field is missing, or the candidates cannot be built) causes
    none. *)
Theorem calls_per_request_are_bounded (req : Req.t) (w : World) :
  let calls := map fst (trace (snd (handle req (run w [])))) in
  (List.length calls <=
   match UPSTREAM_URLS cfg with
   | [] => 6
   | _ :: _ => 2 * List.length (UPSTREAM_URLS cfg)
   end)%nat /\
  (Req.method req <> "POST" \/
   missing (Req.code (fieldsOf req)) \/ missing (Req.name (fieldsOf req)) \/
   buildAttempts cfg (textOf (Req.code (fieldsOf req)))
                 (textOf (Req.name (fieldsOf req))) = None ->
   calls = []) /\
  (forall attempts,
      buildAttempts cfg (textOf (Req.code (fieldsOf req)))
                    (textOf (Req.name (fieldsOf req))) = Some attempts ->
      exists k, (k <= List.length attempts)%nat /\
                calls = firstn k (map opts attempts)).
Proof.
  intros calls. unfold calls. clear calls.
  destruct (handler_cases req (run w []))
    as [[-> [Hwhy _]]
       | [[c [n [attempts [Hm [Hc [Hc' [Hn [Hn' [Hb ->]]]]]]]]]
         | [c [n [Hm [Hc [Hc' [Hn [Hn' [Hb ->]]]]]]]]]].
  - simpl. repeat split.
    + destruct (UPSTREAM_URLS cfg); simpl; lia.
    + intros attempts _. exists 0%nat. split; [lia | reflexivity].
  - simpl snd.
    destruct (dispatch_calls attempts noAttempts w [])
      as [new [-> [Hlen [Hpre _]]]].
    simpl app. rewrite Hc, Hn. simpl textOf. rewrite Hb.
    repeat split.
    + rewrite length_map.
      assert (Hsize : List.length attempts = (2 * List.length (targetsOf cfg))%nat).
      { rewrite buildAttempts_targets in Hb.
        destruct (queryOf c n) as [q |]; [| discriminate].
        injection Hb as <-.
        exact (length_pairs _ _ (fun u => postAttempt u c n)
                            (fun u => getAttempt u q) (targetsOf cfg)). }
      unfold targetsOf in Hsize.
      destruct (UPSTREAM_URLS cfg) as [|u urls]; [| lia].
      destruct (truthy (UPSTREAM_BASE cfg)); simpl in Hsize; lia.
    + intros [Hp | [Hmiss | [Hmiss | Hnone]]].
      * contradiction.
      * destruct Hmiss as [H | H]; congruence.
      * destruct Hmiss as [H | H]; congruence.
      * discriminate.
    + intros attempts' H. injection H as <-.
      exists (List.length new). split; [exact Hlen | exact Hpre].
  - simpl. repeat split.
    + destruct (UPSTREAM_URLS cfg); simpl; lia.
    + intros attempts _. exists 0%nat. split; [lia | reflexivity].
Qed.

(** X10: status and shape of a response always agree: [joined: true] comes
    with status 200 and an upstream status within 200..299; [joined: false]
    never comes with a status within 200..299, nor with status 0; an error
    without [joined] has status 400 or 405; an empty response has 204. *)
Theorem status_and_shape_agree (req : Req.t) (r : Run World) (resp : Response) :
  fst (handle req r) = Sent resp ->
  match payload resp with
  | Joined s _ _ => statusCode resp = 200 /\ 200 <= s <= 299
  | NotJoined _ _ => ~ (200 <= statusCode resp <= 299) /\ statusCode resp <> 0
  | ErrorOnly _ => statusCode resp = 400 \/ statusCode resp = 405
  | NoContent => statusCode resp = 204
  end.
Proof.
  assert (Hrange : forall s, responseOk s = true <-> 200 <= s <= 299).
  { intros s. unfold responseOk. rewrite andb_true_iff, !Z.leb_le. reflexivity. }
  destruct (handler_cases req r)
    as [[_ [_ [st [err [[[-> ->] | [[-> ->] | [-> ->]]] ->]]]]]
       | [[c [n [attempts [_ [_ [_ [_ [_ [_ ->]]]]]]]]]
         | [c [n [_ [_ [_ [_ [_ [_ ->]]]]]]]]]];
    simpl; intros H; try discriminate; injection H as <-; simpl; auto.
  pose proof (dispatch_status_coherent World fetch JSON_parse JSON_stringify cfg
                attempts noAttempts r eq_refl) as H.
  destruct (snd (fst (loop attempts noAttempts r))); try contradiction.
  - destruct H as [-> Hs]. split; [reflexivity | apply Hrange; exact Hs].
  - destruct H as [Hs H0]. split; [| exact H0].
    intros Hin. apply Hrange in Hin. congruence.
Qed.

(** X11: the only calls a join request causes are those of its candidates:
    each goes to a target, under the configured timeout; a POST carries the
    configured headers and the serialised [{code, name}] of the request, a
    GET carries neither headers nor body and has the two fields in its
    query. *)
Theorem every_call_is_a_candidate_call
        (req : Req.t) (w : World) (c n : string) (call : FetchCall) (x : Exchange) :
  Req.code (fieldsOf req) = Some c ->
  Req.name (fieldsOf req) = Some n ->
  In (call, x) (trace (snd (handle req (run w [])))) ->
  signal_ms call = TIMEOUT_MS cfg /\
  exists u q,
    In u (targetsOf cfg) /\
    queryOf c n = Some q /\
    (fc_method call = POST /\ fc_url call = u /\
     fc_headers call = Some (UPSTREAM_HEADERS cfg) /\
     fc_body call =
       Some (JSON_stringify (JObj [("code", JStr c); ("name", JStr n)])) \/
     fc_method call = GET /\ fc_url call = u ++ "?" ++ q /\
     fc_headers call = None /\ fc_body call = None).
Proof.
  intros Hc Hn.
  destruct (handler_cases req (run w []))
    as [[-> _]
       | [[c' [n' [attempts [_ [Hc' [_ [Hn' [_ [Hb ->]]]]]]]]]
         | [c' [n' [_ [_ [_ [_ [_ [_ ->]]]]]]]]]];
    [intros [] | | intros []].
  assert (c' = c) by congruence. assert (n' = n) by congruence. subst c' n'.
  simpl snd.
  destruct (dispatch_calls attempts noAttempts w [])
    as [new [-> [_ [_ Hin]]]].
  simpl. intros Hcall. destruct (Hin call x Hcall) as [a [Ha ->]].
  rewrite buildAttempts_targets in Hb.
  destruct (queryOf c n) as [q |]; [| discriminate]. injection Hb as <-.
  apply in_flat_map in Ha as [u [Hu [<- | [<- | []]]]];
    (split; [reflexivity | exists u, q; split; [exact Hu | split; [reflexivity |]]]).
  - left. repeat split.
  - right. repeat split.
Qed.

(** X16: the handler ends in an uncaught [URIError] exactly for a POST
    request whose two fields are present and not empty and of which one
    holds an unpaired surrogate; it then has sent nothing and called no
    one, whatever is configured. *)
Theorem fields_that_cannot_be_encoded_escape_the_handler
        (req : Req.t) (r : Run World) :
  (fst (handle req r) = Uncaught URIError <->
   Req.method req = "POST" /\
   exists c n,
     Req.code (fieldsOf req) = Some c /\ c <> "" /\
     Req.name (fieldsOf req) = Some n /\ n <> "" /\
     (URI.wellFormed c = false \/ URI.wellFormed n = false)) /\
  (fst (handle req r) = Uncaught URIError -> snd (handle req r) = r).
Proof.
  destruct (handler_cases req r)
    as [[Hrun [Hwhy [st [err [_ Hres]]]]]
       | [[c [n [attempts [Hm [Hc [Hc' [Hn [Hn' [Hb Hres]]]]]]]]]
         | [c [n [Hm [Hc [Hc' [Hn [Hn' [Hb Hres]]]]]]]]]].
  - rewrite Hres. split; [split |]; try discriminate.
    intros [Hm [c [n [Hc [Hc' [Hn [Hn' _]]]]]]]. exfalso.
    destruct Hwhy as [H | [[H | H] | [H | H]]]; congruence.
  - rewrite Hres. simpl. split; [split |]; try discriminate.
    intros [_ [c' [n' [Hc2 [_ [Hn2 [_ Hbad]]]]]]]. exfalso.
    assert (c' = c) by congruence. assert (n' = n) by congruence. subst c' n'.
    rewrite buildAttempts_targets in Hb.
    rewrite (proj2 (queryOf_none c n) Hbad) in Hb. discriminate.
  - rewrite Hres. simpl. split; [split |]; try reflexivity.
    intros _. split; [exact Hm |]. exists c, n.
    repeat split; try assumption.
    apply queryOf_none. rewrite buildAttempts_targets in Hb.
    destruct (queryOf c n); [discriminate | reflexivity].
Qed.

End Surface.

(** A GET request, even with a complete body, is answered 405. *)
Lemma other_methods_are_answered_at_the_door_witness :
  Script.runHandler Script.twoTargets
    {| Req.method := "GET";
       Req.body := Some {| Req.code := Some "AB12"; Req.name := Some "Jo" |} |}
    [FetchResolved 200 (TextOk "{}")] =
  (Sent {| headers := corsHeaders Script.twoTargets; statusCode := 405;
           payload := ErrorOnly "Use POST /api/join with JSON { code, name }" |},
   Script.start [FetchResolved 200 (TextOk "{}")]).
Proof.
  pose (req := {| Req.method := "GET";
                  Req.body := Some {| Req.code := Some "AB12"; Req.name := Some "Jo" |} |}).
  assert (Hp : Req.method req <> "POST") by discriminate.
  assert (Ho : Req.method req <> "OPTIONS") by discriminate.
  destruct (other_methods_are_answered_at_the_door
              Script.World Script.fetch Script.JSON_parse Script.JSON_stringify
              Script.twoTargets req
              (Script.start [FetchResolved 200 (TextOk "{}")]) Hp)
    as [Hrun [_ Hother]].
  unfold Script.runHandler. fold req.
  rewrite (surjective_pairing (handler _ _ _ _ req _)), Hrun, (Hother Ho).
  reflexivity.
Defined.

(** The response to a request that no upstream accepted. *)
Lemma every_response_carries_the_cors_headers_witness :
  headers {| headers := corsHeaders Script.twoTargets; statusCode := 502;
             payload := NotJoined "Fetch failed (timeout/CORS/host) via GET https://b.test?code=AB12&name=Jo" JNull |} =
  [("Access-Control-Allow-Origin", "*");
   ("Access-Control-Allow-Methods", "POST,OPTIONS");
   ("Access-Control-Allow-Headers", "Content-Type")].
Proof.
  exact (every_response_carries_the_cors_headers
           Script.World Script.fetch Script.JSON_parse Script.JSON_stringify
           Script.twoTargets (Script.joinRequest "AB12" "Jo") (Script.start [])
           _ eq_refl).
Defined.

(** A request answered 404 by every candidate. *)
Lemma status_and_shape_agree_witness :
  ~ (200 <= 404 <= 299) /\ 404 <> 0.
Proof.
  exact (status_and_shape_agree
           Script.World Script.fetch Script.JSON_parse Script.JSON_stringify
           Script.twoTargets (Script.joinRequest "AB12" "Jo")
           (Script.start [FetchResolved 404 (TextOk "{}"); FetchResolved 404 (TextOk "{}");
                          FetchResolved 404 (TextOk "{}"); FetchResolved 404 (TextOk "{}")])
           {| headers := corsHeaders Script.twoTargets; statusCode := 404;
              payload := NotJoined "Upstream error via GET https://b.test?code=AB12&name=Jo"
                                   (JObj []) |}
           eq_refl).
Defined.

(** The second call of a request whose first candidate answered 500. *)
Lemma every_call_is_a_candidate_call_witness :
  let call := {| fc_url := "https://a.test?code=AB12&name=Jo"; fc_method := GET;
                 signal_ms := 8000; fc_headers := None; fc_body := None |} in
  signal_ms call = 8000 /\
  exists u q,
    In u ["https://a.test"; "https://b.test"] /\
    queryOf "AB12" "Jo" = Some q /\
    (fc_method call = POST /\ fc_url call = u /\
     fc_headers call = Some [("Content-Type", "application/json")] /\
     fc_body call =
       Some (Script.JSON_stringify (JObj [("code", JStr "AB12"); ("name", JStr "Jo")])) \/
     fc_method call = GET /\ fc_url call = u ++ "?" ++ q /\
     fc_headers call = None /\ fc_body call = None).
Proof.
  intros call.
  apply (every_call_is_a_candidate_call
           Script.World Script.fetch Script.JSON_parse Script.JSON_stringify
           Script.twoTargets (Script.joinRequest "AB12" "Jo")
           [FetchResolved 500 (TextOk "oops"); FetchResolved 200 (TextOk "{}")]
           "AB12" "Jo" call (FetchResolved 200 (TextOk "{}")) eq_refl eq_refl).
  right. left. reflexivity.
Defined.

(** ** The configured targets *)

Lemma stripPrefix_app (p : list ascii) :
  forall l rest, Env.stripPrefix p l = Some rest -> l = (p ++ rest)%list.
Proof.
  induction p as [|a p IH]; intros l rest H; simpl in H.
  - injection H as ->. reflexivity.
  - destruct l as [|b l]; [discriminate |].
    destruct (Ascii.eqb_spec a b) as [-> | _]; [| discriminate].
    simpl. f_equal. exact (IH l rest H).
Qed.

Lemma stripPrefix_self (p rest : list ascii) :
  Env.stripPrefix p (p ++ rest) = Some rest.
Proof.
  induction p as [|a p IH]; [reflexivity |].
  simpl. rewrite Ascii.eqb_refl. exact IH.
Qed.

Lemma stripAny_app (tokens : list (list ascii)) :
  forall l rest,
    Env.stripAny tokens l = Some rest ->
    exists t, In t tokens /\ l = (t ++ rest)%list.
Proof.
  induction tokens as [|t ts IH]; intros l rest H; simpl in H; [discriminate |].
  destruct (Env.stripPrefix t l) as [r |] eqn:E.
  - injection H as ->. exists t. split; [left; reflexivity |].
    exact (stripPrefix_app t l rest E).
  - destruct (IH l rest H) as [t' [Ht' ->]]. exists t'.
    split; [right; exact Ht' | reflexivity].
Qed.

Lemma stripAny_hit (tokens : list (list ascii)) (t rest : list ascii) :
  In t tokens -> Env.stripAny tokens (t ++ rest) <> None.
Proof.
  induction tokens as [|t' ts IH]; intros Ht; [contradiction |].
  simpl. destruct (Env.stripPrefix t' (t ++ rest)) eqn:E; [discriminate |].
  destruct Ht as [-> | Ht]; [| exact (IH Ht)].
  rewrite stripPrefix_self in E. discriminate.
Qed.

(** What [dropTokens] returns is the end of what it was given. *)
Lemma dropTokens_suffix (tokens : list (list ascii)) (fuel : nat) :
  forall l, exists pre, l = (pre ++ Env.dropTokens tokens fuel l)%list.
Proof.
  induction fuel as [|fuel IH]; intros l; simpl.
  - exists []. reflexivity.
  - destruct (Env.stripAny tokens l) as [rest |] eqn:E.
    + destruct (stripAny_app tokens l rest E) as [t [_ ->]].
      destruct (IH rest) as [pre Hpre].
      exists (t ++ pre)%list. rewrite <- app_assoc. f_equal. exact Hpre.
    + exists []. reflexivity.
Qed.

Lemma dropTokens_done (tokens : list (list ascii)) (fuel : nat) :
  Forall (fun t => t <> []) tokens ->
  forall l, (List.length l <= fuel)%nat ->
            Env.stripAny tokens (Env.dropTokens tokens fuel l) = None.
Proof.
  intros Hne. induction fuel as [|fuel IH]; intros l Hl; simpl.
  - destruct l; [| simpl in Hl; lia].
    clear Hl. induction tokens as [|t ts IHt]; [reflexivity |].
    inversion Hne as [|? ? Ht Hts]; subst. simpl.
    destruct t; [congruence | exact (IHt Hts)].
  - destruct (Env.stripAny tokens l) as [rest |] eqn:E; [| exact E].
    apply IH. destruct (stripAny_app tokens l rest E) as [t [Ht ->]].
    rewrite length_app in Hl.
    assert (t <> []) by (rewrite Forall_forall in Hne; exact (Hne t Ht)).
    destruct t; [congruence | simpl in Hl; lia].
Qed.

Lemma dropTokens_stable (tokens : list (list ascii)) (fuel : nat) (l : list ascii) :
  Env.stripAny tokens l = None -> Env.dropTokens tokens fuel l = l.
Proof. intros H. destruct fuel; simpl; [| rewrite H]; reflexivity. Qed.

Lemma whiteSpace_nonempty : Forall (fun t : list ascii => t <> []) Env.whiteSpace.
Proof. repeat constructor; discriminate. Qed.

Lemma whiteSpace_rev_nonempty :
  Forall (fun t : list ascii => t <> []) (map (@List.rev ascii) Env.whiteSpace).
Proof. repeat constructor; discriminate. Qed.

(** Trimming twice is trimming once. *)
Lemma trimBytes_stable (l : list ascii) :
  let y := Env.trimEndBytes (Env.trimStartBytes l) in
  Env.trimEndBytes (Env.trimStartBytes y) = y.
Proof.
  intros y. set (x := Env.trimStartBytes l) in *.
  set (z := Env.dropTokens (map (@List.rev ascii) Env.whiteSpace)
                           (List.length x) (List.rev x)).
  assert (Hy : y = List.rev z) by reflexivity.
  assert (Hz : Env.stripAny (map (@List.rev ascii) Env.whiteSpace) z = None).
  { apply dropTokens_done; [exact whiteSpace_rev_nonempty |].
    rewrite length_rev. lia. }
  assert (Hx : Env.stripAny Env.whiteSpace x = None).
  { apply dropTokens_done; [exact whiteSpace_nonempty | lia]. }
  assert (Hstart : Env.trimStartBytes y = y).
  { unfold Env.trimStartBytes. apply dropTokens_stable.
    destruct (Env.stripAny Env.whiteSpace y) as [rest |] eqn:E; [| reflexivity].
    exfalso. destruct (stripAny_app _ _ _ E) as [t [Ht Hyt]].
    destruct (dropTokens_suffix (map (@List.rev ascii) Env.whiteSpace)
                                (List.length x) (List.rev x)) as [pre Hpre].
    fold z in Hpre. apply (f_equal (@List.rev ascii)) in Hpre.
    rewrite rev_involutive, rev_app_distr, <- Hy, Hyt, <- app_assoc in Hpre.
    apply (stripAny_hit Env.whiteSpace t (rest ++ List.rev pre) Ht).
    rewrite <- Hpre. exact Hx. }
  rewrite Hstart. unfold Env.trimEndBytes. rewrite Hy at 1 2.
  rewrite rev_involutive, (dropTokens_stable _ _ _ Hz). symmetry. exact Hy.
Qed.

Lemma trim_stable (s : string) : Env.trim (Env.trim s) = Env.trim s.
Proof.
  unfold Env.trim. rewrite list_ascii_of_string_of_list_ascii.
  f_equal. apply trimBytes_stable.
Qed.

Lemma trim_chars (s : string) (c : ascii) :
  In c (chars (Env.trim s)) -> In c (chars s).
Proof.
  unfold Env.trim, chars. rewrite list_ascii_of_string_of_list_ascii.
  set (l := list_ascii_of_string s). unfold Env.trimEndBytes, Env.trimStartBytes.
  intros H. apply in_rev in H.
  destruct (dropTokens_suffix (map (@List.rev ascii) Env.whiteSpace)
              (List.length (Env.dropTokens Env.whiteSpace (List.length l) l))
              (List.rev (Env.dropTokens Env.whiteSpace (List.length l) l)))
    as [pre Hpre].
  assert (H1 : In c (List.rev (Env.dropTokens Env.whiteSpace (List.length l) l))).
  { rewrite Hpre. apply in_or_app. right. exact H. }
  apply in_rev in H1.
  destruct (dropTokens_suffix Env.whiteSpace (List.length l) l) as [pre' Hpre'].
  rewrite Hpre'. apply in_or_app. right. exact H1.
Qed.

Lemma splitComma_nonempty (s : string) : Env.splitComma s <> [].
Proof.
  destruct s as [|c s]; simpl; [discriminate |].
  destruct (Ascii.eqb c ","); [discriminate |].
  destruct (Env.splitComma s); discriminate.
Qed.

Lemma splitComma_no_comma (s : string) :
  forall piece, In piece (Env.splitComma s) -> ~ In ","%char (chars piece).
Proof.
  induction s as [|c s IH]; intros piece Hp; simpl in Hp.
  - destruct Hp as [<- | []]. intros [].
  - destruct (Ascii.eqb_spec c ",") as [-> | Hc].
    + destruct Hp as [<- | Hp]; [intros [] | exact (IH piece Hp)].
    + destruct (Env.splitComma s) as [|p ps] eqn:E.
      * destruct Hp as [<- | []]. intros [H | []]. congruence.
      * destruct Hp as [<- | Hp].
        -- intros [H | H]; [congruence |]. exact (IH p (or_introl eq_refl) H).
        -- exact (IH piece (or_intror Hp)).
Qed.

(** X12: whatever [UPSTREAM_URLS] holds, every target read from it is
    non-empty, contains no comma, and is trimmed: it neither starts nor ends
    with white space, so that trimming it again changes nothing. *)
Theorem configured_targets_are_clean (v : option string) (u : string) :
  In u (Env.parseUpstreamUrls v) ->
  u <> "" /\ ~ In ","%char (chars u) /\ Env.trim u = u.
Proof.
  unfold Env.parseUpstreamUrls. intros H.
  apply filter_In in H as [H Hu]. apply in_map_iff in H as [piece [<- Hp]].
  repeat split.
  - intros E. rewrite E in Hu. discriminate.
  - intros Hc. apply trim_chars in Hc.
    exact (splitComma_no_comma _ piece Hp Hc).
  - apply trim_stable.
Qed.

Lemma configured_targets_are_clean_witness :
  "https://b.test" <> "" /\ ~ In ","%char (chars "https://b.test") /\
  Env.trim "https://b.test" = "https://b.test".
Proof.
  apply (configured_targets_are_clean (Some " https://a.test , ,  https://b.test ,")).
  right. left. reflexivity.
Defined.

Lemma splitComma_plain (u : string) :
  ~ In ","%char (chars u) -> Env.splitComma u = [u].
Proof.
  induction u as [|c u IH]; intros Hu; [reflexivity |].
  simpl. destruct (Ascii.eqb_spec c ",") as [-> | _].
  - exfalso. apply Hu. left. reflexivity.
  - rewrite IH; [reflexivity |]. intros H. apply Hu. right. exact H.
Qed.

Lemma splitComma_first (u rest : string) :
  ~ In ","%char (chars u) ->
  Env.splitComma (u ++ String "," rest) = u :: Env.splitComma rest.
Proof.
  induction u as [|c u IH]; intros Hu; [reflexivity |].
  simpl. destruct (Ascii.eqb_spec c ",") as [-> | _].
  - exfalso. apply Hu. left. reflexivity.
  - rewrite IH; [reflexivity |]. intros H. apply Hu. right. exact H.
Qed.

Lemma splitComma_concat (us : list string) :
  us <> [] ->
  (forall u, In u us -> ~ In ","%char (chars u)) ->
  Env.splitComma (String.concat "," us) = us.
Proof.
  induction us as [|u us IH]; intros Hne Hus; [congruence |].
  destruct us as [|v us].
  - simpl. apply splitComma_plain. apply Hus. left. reflexivity.
  - change (String.concat "," (u :: v :: us))
      with (u ++ String "," (String.concat "," (v :: us))).
    rewrite splitComma_first by (apply Hus; left; reflexivity).
    f_equal. apply IH; [discriminate |].
    intros w Hw. apply Hus. right. exact Hw.
Qed.

(** X13: a list of clean targets (each non-empty, without comma, trimmed)
    written with commas between them is read back as the same list, in the
    same order. *)
Theorem clean_targets_are_read_back (us : list string) :
  (forall u, In u us -> u <> "" /\ ~ In ","%char (chars u) /\ Env.trim u = u) ->
  Env.parseUpstreamUrls (Some (String.concat "," us)) = us.
Proof.
  intros Hus. unfold Env.parseUpstreamUrls.
  destruct us as [|u0 us0] eqn:E; [reflexivity |]. rewrite <- E in *.
  assert (Hne : us <> []) by (rewrite E; discriminate). clear E.
  assert (Hsplit : Env.splitComma (Env.orDefault (Some (String.concat "," us)) "") = us).
  { unfold Env.orDefault.
    destruct (truthy (String.concat "," us)) eqn:Ht.
    - apply splitComma_concat; [exact Hne |]. intros u Hu. apply (Hus u Hu).
    - exfalso. destruct us as [|u [|v us']]; [congruence | |].
      + simpl in Ht. destruct (Hus u (or_introl eq_refl)) as [Hu _].
        destruct u; [congruence | discriminate].
      + change (String.concat "," (u :: v :: us'))
          with (u ++ String "," (String.concat "," (v :: us'))) in Ht.
        destruct u; discriminate. }
  rewrite Hsplit. clear Hsplit Hne.
  induction us as [|u us IH]; [reflexivity |].
  simpl. destruct (Hus u (or_introl eq_refl)) as [Hu [_ Htrim]].
  rewrite Htrim. destruct u as [|c u]; [congruence |]. simpl.
  f_equal. apply IH. intros w Hw. apply Hus. right. exact Hw.
Qed.

Lemma clean_targets_are_read_back_witness :
  Env.parseUpstreamUrls (Some "https://a.test,https://b.test/v2") =
  ["https://a.test"; "https://b.test/v2"].
Proof.
  apply (clean_targets_are_read_back ["https://a.test"; "https://b.test/v2"]).
  intros u [<- | [<- | []]]; (split; [discriminate |]); (split; [| reflexivity]);
    intros H; simpl in H;
    repeat (destruct H as [H | H]; [discriminate H |]); exact H.
Defined.

Lemma splitComma_chars (s : string) :
  forall piece c,
    In piece (Env.splitComma s) -> In c (chars piece) -> In c (chars s).
Proof.
  induction s as [|a s IH]; intros piece c Hp Hc; simpl in Hp.
  - destruct Hp as [<- | []]. exact Hc.
  - destruct (Ascii.eqb a ",").
    + destruct Hp as [<- | Hp]; [destruct Hc |].
      right. exact (IH piece c Hp Hc).
    + destruct (Env.splitComma s) as [|p ps] eqn:E.
      * destruct Hp as [<- | []]. destruct Hc as [<- | []]. left. reflexivity.
      * destruct Hp as [<- | Hp].
        -- destruct Hc as [<- | Hc]; [left; reflexivity |].
           right. exact (IH p c (or_introl eq_refl) Hc).
        -- right. exact (IH piece c (or_intror Hp) Hc).
Qed.

Lemma dropTokens_spaces (l : list ascii) :
  Forall (fun c => c = " "%char) l ->
  forall fuel, (List.length l <= fuel)%nat ->
               Env.dropTokens Env.whiteSpace fuel l = [].
Proof.
  induction 1 as [|c l Hc Hl IH]; intros fuel Hf.
  - destruct fuel; reflexivity.
  - subst c. destruct fuel as [|fuel]; [simpl in Hf; lia |].
    change (Env.dropTokens Env.whiteSpace (S fuel) (" "%char :: l))
      with (Env.dropTokens Env.whiteSpace fuel l).
    apply IH. simpl in Hf. lia.
Qed.

Lemma trim_spaces (s : string) :
  (forall c, In c (chars s) -> c = " "%char) -> Env.trim s = "".
Proof.
  intros Hs. unfold Env.trim, Env.trimStartBytes.
  rewrite dropTokens_spaces; [reflexivity | | lia].
  apply Forall_forall. exact Hs.
Qed.

(** X14: when [UPSTREAM_URLS] is unset, empty, or holds nothing but commas
    and spaces, no explicit target is configured, and the candidates are the
    three guessed paths under [UPSTREAM_BASE], or none when that is unset or
    empty too. *)
Theorem blank_list_falls_back_to_base
        (timeout : Z) (hdrs : list (string * string)) (vars : Env.Vars) :
  (forall s c, Env.VAR_UPSTREAM_URLS vars = Some s -> In c (chars s) ->
               c = ","%char \/ c = " "%char) ->
  let cfg := Env.load timeout hdrs vars in
  UPSTREAM_URLS cfg = [] /\
  (forall b, Env.VAR_UPSTREAM_BASE vars = Some b -> b <> "" ->
             targetsOf cfg = [b ++ "/api/join"; b ++ "/v1/join"; b ++ "/join"]) /\
  (Env.VAR_UPSTREAM_BASE vars = None \/ Env.VAR_UPSTREAM_BASE vars = Some "" ->
   targetsOf cfg = []).
Proof.
  intros Hblank cfg.
  assert (Hurls : UPSTREAM_URLS cfg = []).
  { unfold cfg, Env.load. simpl. unfold Env.parseUpstreamUrls.
    assert (Hall : forall c, In c (chars (Env.orDefault (Env.VAR_UPSTREAM_URLS vars) "")) ->
                             c = ","%char \/ c = " "%char).
    { unfold Env.orDefault.
      destruct (Env.VAR_UPSTREAM_URLS vars) as [s |]; [| intros c []].
      destruct (truthy s); [| intros c []].
      intros c Hc. exact (Hblank s c eq_refl Hc). }
    assert (Htrim : forall piece,
               In piece (Env.splitComma (Env.orDefault (Env.VAR_UPSTREAM_URLS vars) "")) ->
               Env.trim piece = "").
    { intros piece Hp. apply trim_spaces. intros c Hc.
      destruct (Hall c (splitComma_chars _ piece c Hp Hc)) as [-> | ->];
        [| reflexivity].
      exfalso. exact (splitComma_no_comma _ piece Hp Hc). }
    induction (Env.splitComma (Env.orDefault (Env.VAR_UPSTREAM_URLS vars) ""))
      as [|p ps IH]; [reflexivity |].
    simpl. rewrite (Htrim p (or_introl eq_refl)). simpl.
    apply IH. intros q Hq. apply Htrim. right. exact Hq. }
  split; [exact Hurls |]. unfold targetsOf. rewrite Hurls. split.
  - intros b Hb Hne. unfold cfg, Env.load. simpl. rewrite Hb. simpl.
    destruct b; [congruence | reflexivity].
  - intros [Hb | Hb]; unfold cfg, Env.load; simpl; rewrite Hb; reflexivity.
Qed.

Lemma blank_list_falls_back_to_base_witness :
  targetsOf (Env.load 8000 []
               {| Env.VAR_UPSTREAM_URLS := Some " , ,";
                  Env.VAR_UPSTREAM_BASE := Some "https://x.test";
                  Env.VAR_CORS_ORIGIN := None |}) =
  ["https://x.test/api/join"; "https://x.test/v1/join"; "https://x.test/join"].
Proof.
  pose (vars := {| Env.VAR_UPSTREAM_URLS := Some " , ,";
                   Env.VAR_UPSTREAM_BASE := Some "https://x.test";
                   Env.VAR_CORS_ORIGIN := None |}).
  assert (Hblank : forall s c, Env.VAR_UPSTREAM_URLS vars = Some s ->
                               In c (chars s) -> c = ","%char \/ c = " "%char).
  { intros s c Hs Hc. injection Hs as <-. simpl in Hc.
    destruct Hc as [<- | [<- | [<- | [<- | []]]]]; auto. }
  assert (Hne : "https://x.test" <> "") by discriminate.
  exact (proj1 (proj2 (blank_list_falls_back_to_base 8000 [] vars Hblank))
               "https://x.test" eq_refl Hne).
Defined.

(** ** What the caller cannot learn *)

Section Opacity.

Variable World : Type.
Variable fetch : FetchCall -> World -> Exchange * World.
Variable JSON_parse : string -> option json.
Variable JSON_stringify : json -> string.
Variable cfg : Config.

Local Notation opts := (optsOf JSON_stringify cfg).
Local Notation run w tr := {| world := w; trace := tr |}.

Lemma dispatch_blurred (attempts : list Attempt) :
  forall (le : LastError.t) (w : World) (tr tr' : list (FetchCall * Exchange)),
    fst (dispatch (blurred fetch) JSON_parse JSON_stringify cfg attempts le (run w tr')) =
    fst (dispatch fetch JSON_parse JSON_stringify cfg attempts le (run w tr)) /\
    world (snd (dispatch (blurred fetch) JSON_parse JSON_stringify cfg attempts le
                         (run w tr'))) =
    world (snd (dispatch fetch JSON_parse JSON_stringify cfg attempts le (run w tr))).
Proof.
  induction attempts as [|a rest IH]; intros le w tr tr'.
  - split; reflexivity.
  - destruct (fetch (opts a) w) as [x w1] eqn:E.
    assert (E' : blurred fetch (opts a) w = (blur x, w1)).
    { unfold blurred. rewrite E. reflexivity. }
    rewrite (dispatch_step World fetch JSON_parse JSON_stringify cfg
               a rest le w tr x w1 E).
    rewrite (dispatch_step World (blurred fetch) JSON_parse JSON_stringify cfg
               a rest le w tr' (blur x) w1 E').
    destruct x as [f | s [raw | f]]; simpl blur; cbv iota.
    + apply IH.
    + destruct (responseOk s); [split; reflexivity | apply IH].
    + destruct (responseOk s); [split; reflexivity | apply IH].
Qed.

(** X15: the response to the caller, and the state the world is left in, do
    not depend on why a call was rejected (deadline or anything else), nor
    on whether a body could not be read or was empty: replacing every
    exchange by its blurred form changes neither. *)
Theorem causes_of_failure_are_not_reported (req : Req.t) (w : World)
        (tr tr' : list (FetchCall * Exchange)) :
  fst (handler (blurred fetch) JSON_parse JSON_stringify cfg req (run w tr')) =
  fst (handler fetch JSON_parse JSON_stringify cfg req (run w tr)) /\
  world (snd (handler (blurred fetch) JSON_parse JSON_stringify cfg req (run w tr'))) =
  world (snd (handler fetch JSON_parse JSON_stringify cfg req (run w tr))).
Proof.
  unfold handler.
  destruct (String.eqb (Req.method req) "OPTIONS"); [split; reflexivity |].
  destruct (negb (String.eqb (Req.method req) "POST")); [split; reflexivity |].
  destruct (negb (truthyField (Req.code (fieldsOf req)))
            || negb (truthyField (Req.name (fieldsOf req)))); [split; reflexivity |].
  destruct (buildAttempts cfg _ _) as [attempts |]; [| split; reflexivity].
  destruct (dispatch_blurred attempts noAttempts w tr tr') as [Hres Hworld].
  unfold bind, ret.
  destruct (dispatch (blurred fetch) JSON_parse JSON_stringify cfg attempts noAttempts
                     (run w tr')) as [[st' p'] r'].
  destruct (dispatch fetch JSON_parse JSON_stringify cfg attempts noAttempts
                     (run w tr)) as [[st p] r].
  simpl in *. injection Hres as -> ->. split; [reflexivity | exact Hworld].
Qed.

End Opacity.
